(** * Gazebo: controller update scheduling and Simbody hinge-joint state cache

    A shallow embedding of

    - [src/server/controllers/Controller.cc] (module [Controller]): the
      rate-gated update of a controller and its connection test;
    - the Simbody hinge joint (module [SimbodyHingeJoint]): indexed
      accessors, and the save/restore of the joint's coordinates;
    - the lookup of a collision by name in [Link.cc] (module [Link]).

    Pointers to interface objects are addresses into a store ([gmap]);
    member functions that dereference them, or that call into the solver,
    are partial ([option]): [None] stands for a fault of the C++ program
    (dangling or null pointer, solver index check). *)

From Stdlib Require Import ZArith QArith Qround Floats Lia Lqa.
From stdpp Require Import base option list gmap strings.

Local Open Scope Z_scope.

(* ===================================================================== *)
(** * Controller.cc *)
(* ===================================================================== *)

Module Controller.

(** Modelled from the spec: the [Time] class ([Timer.hh]/[Time.hh]) is not
    part of the sources; the spec describes times, periods and rates as
    real numbers of seconds.  They are exact rationals here, so [-], [/]
    and [>=] below are the field operations, without rounding. *)
Definition Time : Type := Q.

(** [libgazebo::Iface]: only what the controller reads from it. *)
Record Iface : Type := mkIface {
  GetType : string;
  GetId : string;
  GetOpenCount : Z          (* int *)
}.

Definition set_GetOpenCount (n : Z) (i : Iface) : Iface :=
  {| GetType := GetType i; GetId := GetId i; GetOpenCount := n |}.

(** Address of a heap-allocated [Iface]. *)
Definition addr : Type := positive.

(** Calls of the virtual hooks of the derived class, most recent first.
    The hooks are the controller's "domain work"; the base class only
    decides when they run. *)
Inductive Hook : Type :=
  | InitChild
  | UpdateChild
  | FiniChild.

(** The members of [Controller] that the modelled functions use. *)
Record Controller : Type := mkController {
  alwaysOnP : bool;            (* ParamT<bool>("alwaysOn", false, 0) *)
  updateRateP : Q;             (* ParamT<double>("updateRate", 10, 0) *)
  updatePeriod : Time;
  lastUpdate : Time;
  ifaces : list addr;          (* std::vector<libgazebo::Iface*> *)
  hooks : list Hook
}.

(** What the controller reaches through the singletons
    [Simulator::Instance()], [World::Instance()], and the heap. *)
Record Sim : Type := mkSim {
  GetSimTime : Time;                 (* Simulator::Instance()->GetSimTime() *)
  GetStepTime : Time;                (* ...->GetPhysicsEngine()->GetStepTime() *)
  objects : gmap addr Iface          (* live Iface objects *)
}.

Definition set_updatePeriod (p : Time) (c : Controller) : Controller :=
  {| alwaysOnP := alwaysOnP c; updateRateP := updateRateP c;
     updatePeriod := p; lastUpdate := lastUpdate c;
     ifaces := ifaces c; hooks := hooks c |}.

Definition set_updateRateP (r : Q) (c : Controller) : Controller :=
  {| alwaysOnP := alwaysOnP c; updateRateP := r;
     updatePeriod := updatePeriod c; lastUpdate := lastUpdate c;
     ifaces := ifaces c; hooks := hooks c |}.

Definition set_lastUpdate (t : Time) (c : Controller) : Controller :=
  {| alwaysOnP := alwaysOnP c; updateRateP := updateRateP c;
     updatePeriod := updatePeriod c; lastUpdate := t;
     ifaces := ifaces c; hooks := hooks c |}.

Definition set_ifaces (l : list addr) (c : Controller) : Controller :=
  {| alwaysOnP := alwaysOnP c; updateRateP := updateRateP c;
     updatePeriod := updatePeriod c; lastUpdate := lastUpdate c;
     ifaces := l; hooks := hooks c |}.

Definition call (h : Hook) (c : Controller) : Controller :=
  {| alwaysOnP := alwaysOnP c; updateRateP := updateRateP c;
     updatePeriod := updatePeriod c; lastUpdate := lastUpdate c;
     ifaces := ifaces c; hooks := h :: hooks c |}.

Definition set_objects (h : gmap addr Iface) (s : Sim) : Sim :=
  {| GetSimTime := GetSimTime s; GetStepTime := GetStepTime s; objects := h |}.

(** [Controller::SetUpdateRate]:
<<
  if (rate == 0) this->updatePeriod = 0.0;
  else           this->updatePeriod = 1.0 / rate;
  this->updateRateP->SetValue(rate);
>> *)
Definition SetUpdateRate (rate : Q) (c : Controller) : Controller :=
  let c1 := if Qeq_bool rate 0
            then set_updatePeriod 0%Q c
            else set_updatePeriod (1 / rate)%Q c in
  set_updateRateP rate c1.

(** [Controller::Init]. *)
Definition Init (s : Sim) (c : Controller) : Controller :=
  call InitChild (set_lastUpdate (GetSimTime s) c).

(** The loop of [Controller::IsConnected]: the first interface with
    [GetOpenCount() > 0] returns true. *)
Fixpoint any_open (h : gmap addr Iface) (l : list addr) : option bool :=
  match l with
  | [] => Some false
  | a :: l' =>
      match h !! a with
      | None => None
      | Some i => if 0 <? GetOpenCount i then Some true else any_open h l'
      end
  end.

(** [Controller::IsConnected]. *)
Definition IsConnected (s : Sim) (c : Controller) : option bool :=
  if alwaysOnP c then Some true else any_open (objects s) (ifaces c).

(** The comparison of [Controller::Update]:
    [(simTime - lastUpdate - updatePeriod) / physics_dt >= 0]. *)
Definition due (s : Sim) (c : Controller) : bool :=
  let physics_dt := GetStepTime s in
  let simTime := GetSimTime s in
  Qle_bool 0 ((simTime - lastUpdate c - updatePeriod c) / physics_dt).

(** [Controller::Update]:
<<
  if (this->IsConnected() || **this->alwaysOnP) {
    ...
    if ((simTime-this->lastUpdate-this->updatePeriod)/physics_dt >= 0) {
      this->UpdateChild();
      this->lastUpdate = Simulator::Instance()->GetSimTime();
    }
  }
>> *)
Definition Update (s : Sim) (c : Controller) : option Controller :=
  connected ← IsConnected s c;
  if connected || alwaysOnP c then
    if due s c
    then Some (set_lastUpdate (GetSimTime s) (call UpdateChild c))
    else Some c
  else Some c.

(** [delete *iter] for every element of [ifaces]; deleting an object that
    is not live is a fault. *)
Fixpoint delete_each (l : list addr) (h : gmap addr Iface)
  : option (gmap addr Iface) :=
  match l with
  | [] => Some h
  | a :: l' =>
      match h !! a with
      | None => None
      | Some _ => delete_each l' (delete a h)
      end
  end.

(** [Controller::Fini]. *)
Definition Fini (s : Sim) (c : Controller) : option (Controller * Sim) :=
  h' ← delete_each (ifaces c) (objects s);
  Some (call FiniChild (set_ifaces [] c), set_objects h' s).

(** Every attached pointer points to a live object. *)
Definition live (s : Sim) (c : Controller) : Prop :=
  ∀ a, a ∈ ifaces c → is_Some (objects s !! a).

(** Every attached pointer is live, and no object is attached twice: what
    [Load] establishes ([new] per interface, then [push_back]). *)
Definition attached (s : Sim) (c : Controller) : Prop :=
  NoDup (ifaces c) ∧ live s c.

(** The gate as the specification words it:
    [floor((now - last - period) / step) >= 0]. *)
Definition gate_spec (now last period step : Q) : Prop :=
  0 <= Qfloor ((now - last - period) / step).

(** The comparison of [Update] and the division of [SetUpdateRate] on
    binary64 values, to evaluate the sample numbers as a C++ [double]
    would. *)
Definition due64 (simTime lastUpdate updatePeriod physics_dt : float) : bool :=
  (0 <=? (simTime - lastUpdate - updatePeriod) / physics_dt)%float.
Definition period64 (rate : float) : float :=
  (if rate =? 0 then 0 else 1 / rate)%float.

(** The member functions a caller can invoke once the controller is
    loaded, and one call of each. *)
Inductive Op : Type :=
  | OpSetUpdateRate (rate : Q)
  | OpInit
  | OpUpdate
  | OpFini.

Definition step (o : Op) (cs : Controller * Sim) : option (Controller * Sim) :=
  let (c, s) := cs in
  match o with
  | OpSetUpdateRate rate => Some (SetUpdateRate rate c, s)
  | OpInit => Some (Init s c, s)
  | OpUpdate => c' ← Update s c; Some (c', s)
  | OpFini => Fini s c
  end.

(** ** The rest of the class *)

(** The entity a controller is attached to, with its chain of parents
    ([GetParent()] until [NULL]), nearest first; the kind is what
    [dynamic_cast] tests. *)
Inductive EntityKind : Type :=
  | IsModel
  | IsSensor
  | IsOther.

Record Entity : Type := mkEntity {
  kind : EntityKind;
  Entity_GetName : string
}.

(** Hooks that [Load] and [Reset] call. *)
Inductive ChildHook : Type :=
  | LoadChild
  | ResetChild.

(** The members of the class that the scheduling functions above do not
    use; with [core] they make up the object.  [parent] is the chain that
    starts at [this->parent]; the empty chain is a null pointer. *)
Record Object : Type := mkObject {
  core : Controller;
  nameP : string;                 (* ParamT<std::string>, "name" *)
  typeName : string;
  parent : list Entity;
  childHooks : list ChildHook
}.

Definition set_core (c : Controller) (o : Object) : Object :=
  {| core := c; nameP := nameP o; typeName := typeName o;
     parent := parent o; childHooks := childHooks o |}.

(** A call that returns, or one that leaves by [gzthrow]. *)
Inductive Outcome (A : Type) : Type :=
  | Returned (a : A)
  | Thrown (msg : string).
Arguments Returned {A} a.
Arguments Thrown {A} msg.

(** [Controller::GetName] *)
Definition GetName (o : Object) : string := nameP o.

(** [Controller::Reset] *)
Definition Reset (o : Object) : Object :=
  {| core := core o; nameP := nameP o; typeName := typeName o;
     parent := parent o; childHooks := ResetChild :: childHooks o |}.

(** The loop of [Controller::GetIface]:
<<
  if (it->GetType() == type) {     // it: the element at the iterator
    if (order == 0) iface = it;
    else order --;
  }
>>
    [order] is an [int]; it is only decremented, at most once per
    interface. *)
Fixpoint GetIface_loop (h : gmap addr Iface) (type : string) (l : list addr)
    (order : Z) (iface : option addr) : option (Z * option addr) :=
  match l with
  | [] => Some (order, iface)
  | a :: l' =>
      i ← h !! a;
      if bool_decide (GetType i = type) then
        if order =? 0
        then GetIface_loop h type l' order (Some a)
        else GetIface_loop h type l' (order - 1) iface
      else GetIface_loop h type l' order iface
  end.

(** [Controller::GetIface]; [None] as a pointer is [NULL]. *)
Definition GetIface (type : string) (mandatory : bool) (number : Z)
    (s : Sim) (o : Object) : option (Outcome (option addr)) :=
  r ← GetIface_loop (objects s) type (ifaces (core o)) number None;
  let iface := r.2 in
  if bool_decide (iface = None) && mandatory
  then Some (Thrown ("Controller " +:+ GetName o +:+ "trying to get " +:+ type
                     +:+ " interface but it is not defined"))
  else Some (Returned iface).

(** [Controller::GetInterfaceNames]: one [push_back] per interface onto
    the caller's vector. *)
Fixpoint GetInterfaceNames_loop (h : gmap addr Iface) (l : list addr)
    (names : list string) : option (list string) :=
  match l with
  | [] => Some names
  | a :: l' =>
      i ← h !! a;
      let str := GetId i +:+ ">>" +:+ GetType i in
      GetInterfaceNames_loop h l' (names ++ [str])
  end.

Definition GetInterfaceNames (s : Sim) (c : Controller) (names : list string)
  : option (list string) :=
  GetInterfaceNames_loop (objects s) (ifaces c) names.

(** The inner loop of [Controller::Load]:
<<
  Entity *p = parent;
  while (p != NULL) {
    Model *m = dynamic_cast<Model*>(p);
    if (m) ifaceName.insert(0, m->GetName()+"::");
    p = p->GetParent();
  }
>> *)
Fixpoint scopedName (p : list Entity) (ifaceName : string) : string :=
  match p with
  | [] => ifaceName
  | e :: p' =>
      match kind e with
      | IsModel => scopedName p' ((Entity_GetName e +:+ "::") +:+ ifaceName)
      | _ => scopedName p' ifaceName
      end
  end.

(** What [Load] reads from its [XMLConfigNode].  [XMLConfig.hh] and
    [Param.hh] are not part of the sources: the node carries its name,
    the values that the three [ParamT::Load] calls and [GetValue] give,
    and for each [interface] child its name (the interface type) and its
    [name] attribute. *)
Record InterfaceNode : Type := mkInterfaceNode {
  ifaceType : string;             (* childNode->GetName() *)
  ifaceNameAttr : string          (* childNode->GetString, "name" *)
}.

Record XMLConfigNode : Type := mkXMLConfigNode {
  Node_GetName : string;
  Node_name : string;
  Node_alwaysOn : bool;
  Node_updateRate : Q;
  Node_interfaces : list InterfaceNode
}.

(** [gzmsg(1) << ...] lines written by [Load], most recent first. *)
Record Loading : Type := mkLoading {
  obj : Object;
  sim : Sim;
  gzmsg : list string
}.

Section Load.

(** [libgazebo] is an external library and [new] an external allocator,
    taken as parameters: the factory ([None]: it throws), [Iface::Create]
    ([inr e]: it throws the string [e]), and the address that [new]
    returns for a given store. *)
Variable NewIface : string → option Iface.
Variable Create : Iface → string → Iface + string.
Variable new_addr : gmap addr Iface → addr.

(** One turn of the [while (childNode)] loop: the state after it, or the
    thrown string with the state at the throw. *)
Definition Load_interface (n : InterfaceNode) (st : Loading)
  : Loading + (string * Loading) :=
  let ifaceName := scopedName (parent (obj st)) (ifaceNameAttr n) in
  match NewIface (ifaceType n) with
  | None =>
      inl {| obj := obj st; sim := sim st;
             gzmsg := ("No libgazebo Iface for the interface["
                       +:+ ifaceType n +:+ "] found. Disabled.")
                      :: gzmsg st |}
  | Some i =>
      let a := new_addr (objects (sim st)) in
      match Create i ifaceName with
      | inr e =>
          inr (e, {| obj := obj st;
                     sim := set_objects (<[a:=i]> (objects (sim st))) (sim st);
                     gzmsg := gzmsg st |})
      | inl i' =>
          inl {| obj := set_core
                          (set_ifaces (ifaces (core (obj st)) ++ [a])
                             (core (obj st)))
                          (obj st);
                 sim := set_objects (<[a:=i']> (objects (sim st))) (sim st);
                 gzmsg := gzmsg st |}
      end
  end.

Fixpoint Load_interfaces (l : list InterfaceNode) (st : Loading)
  : Loading + (string * Loading) :=
  match l with
  | [] => inl st
  | n :: l' =>
      match Load_interface n st with
      | inl st' => Load_interfaces l' st'
      | inr thrown => inr thrown
      end
  end.

(** [Controller::Load]: the result is the state after the call, or the
    exception with the state at the throw. *)
Definition Load (node : XMLConfigNode) (st : Loading)
  : Loading + (string * Loading) :=
  match parent (obj st) with
  | [] => inr ("Parent entity has not been set", st)
  | _ :: _ =>
      let c := core (obj st) in
      let c1 :=
        SetUpdateRate (Node_updateRate node)
          {| alwaysOnP := Node_alwaysOn node;
             updateRateP := Node_updateRate node;
             updatePeriod := updatePeriod c; lastUpdate := lastUpdate c;
             ifaces := ifaces c; hooks := hooks c |} in
      let o1 :=
        {| core := c1; nameP := Node_name node;
           typeName := Node_GetName node; parent := parent (obj st);
           childHooks := childHooks (obj st) |} in
      match Load_interfaces (Node_interfaces node)
              {| obj := o1; sim := sim st; gzmsg := gzmsg st |} with
      | inl st' =>
          inl {| obj := {| core := core (obj st'); nameP := nameP (obj st');
                           typeName := typeName (obj st');
                           parent := parent (obj st');
                           childHooks := LoadChild :: childHooks (obj st') |};
                 sim := sim st'; gzmsg := gzmsg st' |}
      | inr thrown => inr thrown
      end
  end.

End Load.

(** [st'] is [st] with the interfaces [added] created and attached, and
    nothing else changed. *)
Definition extends (st st' : Loading) (added : list addr) : Prop :=
  ifaces (core (obj st')) = ifaces (core (obj st)) ++ added
  ∧ NoDup added
  ∧ (∀ a, a ∈ added →
          objects (sim st) !! a = None ∧ is_Some (objects (sim st') !! a))
  ∧ (∀ a, a ∉ added → objects (sim st') !! a = objects (sim st) !! a)
  ∧ alwaysOnP (core (obj st')) = alwaysOnP (core (obj st))
  ∧ updateRateP (core (obj st')) = updateRateP (core (obj st))
  ∧ updatePeriod (core (obj st')) = updatePeriod (core (obj st))
  ∧ nameP (obj st') = nameP (obj st)
  ∧ typeName (obj st') = typeName (obj st)
  ∧ parent (obj st') = parent (obj st)
  ∧ childHooks (obj st') = childHooks (obj st).

(** The interfaces of the requested type, in the order of attachment. *)
Definition of_type (s : Sim) (c : Controller) (type : string) : list addr :=
  filter (λ a, GetType <$> objects s !! a = Some type) (ifaces c).

(** The enclosing models of a chain, outermost first, each followed by
    the scope separator. *)
Definition model_scope (p : list Entity) : string :=
  foldr (λ e acc, acc +:+ match kind e with
                          | IsModel => Entity_GetName e +:+ "::"
                          | _ => EmptyString
                          end) EmptyString p.

(** ** Sample inputs *)

(** A controller as the constructor and [Load] leave it (rate 10), with
    one interface, at address 1, that nobody has opened. *)
Definition laser : Iface :=
  {| GetType := "laser"; GetId := "robot::laser_iface_0"; GetOpenCount := 0 |}.

Definition sample_controller : Controller :=
  SetUpdateRate 10
    {| alwaysOnP := false; updateRateP := 10; updatePeriod := 0%Q;
       lastUpdate := 0%Q; ifaces := [1%positive]; hooks := [] |}.

Definition sample_sim (simTime : Time) : Sim :=
  {| GetSimTime := simTime; GetStepTime := 0.01%Q;
     objects := {[ 1%positive := laser ]} |}.

Definition sample_sim_open (simTime : Time) : Sim :=
  {| GetSimTime := simTime; GetStepTime := 0.01%Q;
     objects := {[ 1%positive := set_GetOpenCount 1 laser ]} |}.

(** A factory that knows the laser and position interfaces, a [Create]
    that stores the name as the id, and an allocator that returns an
    address outside the store. *)
Definition sample_NewIface (type : string) : option Iface :=
  if bool_decide (type = "laser") then Some laser
  else if bool_decide (type = "position")
       then Some {| GetType := "position"; GetId := EmptyString;
                    GetOpenCount := 0 |}
       else None.

Definition sample_Create (i : Iface) (name : string) : Iface + string :=
  inl {| GetType := GetType i; GetId := name; GetOpenCount := 0 |}.

Definition sample_Create_fails (i : Iface) (name : string) : Iface + string :=
  inr "shared memory segment exists".

Definition sample_new_addr (h : gmap addr Iface) : addr := fresh (dom h).

(** A controller node with a laser, an unknown and a position
    interface, for a controller on a sensor of the model [robot]. *)
Definition sample_node : XMLConfigNode :=
  {| Node_GetName := "sicklms200"; Node_name := "laser_controller";
     Node_alwaysOn := false; Node_updateRate := 10%Q;
     Node_interfaces :=
       [ {| ifaceType := "laser"; ifaceNameAttr := "laser_iface_0" |};
         {| ifaceType := "sonar"; ifaceNameAttr := "sonar_iface_0" |};
         {| ifaceType := "position"; ifaceNameAttr := "position_iface_0" |} ]
  |}.

Definition sample_chain : list Entity :=
  [ {| kind := IsSensor; Entity_GetName := "laser" |};
    {| kind := IsOther; Entity_GetName := "body" |};
    {| kind := IsModel; Entity_GetName := "arm" |};
    {| kind := IsModel; Entity_GetName := "robot" |} ].

Definition sample_loading : Loading :=
  {| obj := {| core := {| alwaysOnP := false; updateRateP := 10%Q;
                          updatePeriod := 0%Q; lastUpdate := 0%Q;
                          ifaces := []; hooks := [] |};
               nameP := EmptyString; typeName := EmptyString;
               parent := sample_chain; childHooks := [] |};
     sim := {| GetSimTime := 0%Q; GetStepTime := 0.01%Q; objects := ∅ |};
     gzmsg := [] |}.

(** Two laser interfaces and a position interface, attached in this
    order. *)
Definition sample_three : Object * Sim :=
  ({| core := {| alwaysOnP := false; updateRateP := 10%Q;
                 updatePeriod := 0.1%Q; lastUpdate := 0%Q;
                 ifaces := [1%positive; 2%positive; 3%positive];
                 hooks := [] |};
      nameP := "ctrl"; typeName := "generic"; parent := sample_chain;
      childHooks := [] |},
   {| GetSimTime := 0%Q; GetStepTime := 0.01%Q;
      objects :=
        {[ 1%positive := {| GetType := "laser"; GetId := "front";
                            GetOpenCount := 0 |};
           2%positive := {| GetType := "position"; GetId := "base";
                            GetOpenCount := 0 |};
           3%positive := {| GetType := "laser"; GetId := "rear";
                            GetOpenCount := 0 |} ]} |}).

(** The nodes whose interface type the factory knows. *)
Definition known (NewIface : string → option Iface)
    (l : list InterfaceNode) : list InterfaceNode :=
  filter (λ n, is_Some (NewIface (ifaceType n))) l.

End Controller.

(* ===================================================================== *)
(** * SimbodyHingeJoint.cc *)
(* ===================================================================== *)

Module SimbodyHingeJoint.

(** A C++ [double] is an IEEE 754 binary64 value: Rocq's primitive [float].
    The joint never computes with the values, it stores and returns them. *)
Definition NaN : float := nan.               (* SimTK::NaN *)

(** [math::Vector3] and [math::Angle] (constructed from radians). *)
Record Vector3 : Type := mkVector3 { vx : float; vy : float; vz : float }.
Record Angle : Type := mkAngle { Radian : float }.

(** Modelled from the spec: [SimTK::State] is an external type; the spec
    describes it as a structure holding, per joint, a coordinate and a
    velocity value at each zero-based mobility index, with their counts.
    This is the part of the state that belongs to the joint's mobilizer,
    with the mobility forces of [discreteForces]. *)
Record State : Type := mkState {
  stateQ : list float;
  stateU : list float;
  stateForces : list float
}.

(** A freshly constructed state with [nq] coordinates and [nu] velocities,
    all zero. *)
Definition State_zero (nq nu : nat) : State :=
  {| stateQ := replicate nq 0%float;
     stateU := replicate nu 0%float;
     stateForces := replicate nu 0%float |}.

Definition getNumQ (st : State) : nat := length (stateQ st).
Definition getNumU (st : State) : nat := length (stateU st).

(** Messages written to the console streams. *)
Inductive Msg : Type :=
  | gzerr (text : string)
  | gzdbg (text : string).

(** The members of the joint that the modelled functions use. *)
Record Joint : Type := mkJoint {
  isEmptyHandle : bool;             (* this->mobod.isEmptyHandle() *)
  physicsInitialized : bool;
  simbodyQ : list float;            (* std::vector<double> *)
  simbodyU : list float
}.

(** [SimbodyPhysics], reached through [this->simbodyPhysics]. *)
Record SimbodyPhysics : Type := mkSimbodyPhysics {
  simbodyPhysicsInitialized : bool;
  simbodyPhysicsStepped : bool;
  integ : State                     (* integ->getState(), updAdvancedState() *)
}.

(** The joint, the engine it points to ([None]: null pointer), and the
    console. *)
Record World : Type := mkWorld {
  this : Joint;
  simbodyPhysics : option SimbodyPhysics;
  console : list Msg                (* most recent first *)
}.

(** The joint as its constructor leaves it. *)
Definition Joint_new : Joint :=
  {| isEmptyHandle := true; physicsInitialized := false;
     simbodyQ := []; simbodyU := [] |}.

(** ** State and fault monad *)

Definition M (A : Type) : Type := World → option (A * World).

Definition ret {A} (a : A) : M A := λ w, Some (a, w).
Definition bind {A B} (m : M A) (k : A → M B) : M B :=
  λ w, match m w with
       | Some (a, w') => k a w'
       | None => None
       end.
Definition fault {A} : M A := λ _, None.

#[global] Instance M_ret : MRet M := @ret.
#[global] Instance M_bind : MBind M := λ A B k m, bind m k.

Definition getThis : M Joint := λ w, Some (this w, w).
Definition set_this (j : Joint) (w : World) : World :=
  {| this := j; simbodyPhysics := simbodyPhysics w; console := console w |}.
Definition putThis (j : Joint) : M unit := λ w, Some (tt, set_this j w).
Definition lift {A} (o : option A) : M A :=
  λ w, match o with Some a => Some (a, w) | None => None end.

(** [this->simbodyPhysics != NULL] *)
Definition hasPhysics : M bool := λ w, Some (bool_decide (is_Some (simbodyPhysics w)), w).
(** [*this->simbodyPhysics]: a null pointer faults. *)
Definition getPhysics : M SimbodyPhysics :=
  λ w, match simbodyPhysics w with Some p => Some (p, w) | None => None end.
Definition set_simbodyPhysics (p : SimbodyPhysics) (w : World) : World :=
  {| this := this w; simbodyPhysics := Some p; console := console w |}.
Definition putPhysics (p : SimbodyPhysics) : M unit :=
  λ w, Some (tt, set_simbodyPhysics p w).
(** [gzerr << ...], [gzdbg << ...] *)
Definition say (m : Msg) (w : World) : World :=
  {| this := this w; simbodyPhysics := simbodyPhysics w;
     console := m :: console w |}.
Definition log (m : Msg) : M unit := λ w, Some (tt, say m w).

(** [for (unsigned int i = 0; i < n; ++i) body(i)] over the object [s]
    that the body updates; [n] is read once, no body below changes the
    bound. *)
Fixpoint for_from {T : Type} (i n : nat) (body : nat → T → option T) (s : T)
  : option T :=
  match n with
  | O => Some s
  | S n' => s' ← body i s; for_from (S i) n' body s'
  end.
Definition for_upto {T : Type} (n : nat) (body : nat → T → option T) (s : T)
  : option T :=
  for_from 0 n body s.

(** ** The mobilizer's accessors

    Modelled from the spec: [SimTK::MobilizedBody] is external.  Every
    accessor needs a non-empty handle and an index below the count the
    state reports; anything else is a fault of the solver. *)
Definition mobod_getOneQ (j : Joint) (st : State) (i : nat) : option float :=
  if isEmptyHandle j then None else stateQ st !! i.
Definition mobod_getOneU (j : Joint) (st : State) (i : nat) : option float :=
  if isEmptyHandle j then None else stateU st !! i.
Definition set_stateQ (l : list float) (st : State) : State :=
  {| stateQ := l; stateU := stateU st; stateForces := stateForces st |}.
Definition set_stateU (l : list float) (st : State) : State :=
  {| stateQ := stateQ st; stateU := l; stateForces := stateForces st |}.
Definition set_stateForces (l : list float) (st : State) : State :=
  {| stateQ := stateQ st; stateU := stateU st; stateForces := l |}.

Definition mobod_setOneQ (j : Joint) (st : State) (i : nat) (v : float)
  : option State :=
  if isEmptyHandle j then None
  else if decide (i < getNumQ st)%nat
       then Some (set_stateQ (<[i:=v]> (stateQ st)) st)
       else None.
Definition mobod_setOneU (j : Joint) (st : State) (i : nat) (v : float)
  : option State :=
  if isEmptyHandle j then None
  else if decide (i < getNumU st)%nat
       then Some (set_stateU (<[i:=v]> (stateU st)) st)
       else None.
(** [discreteForces.setOneMobilityForce(state, mobod, uindex, f)] *)
Definition setOneMobilityForce (j : Joint) (st : State) (i : nat) (f : float)
  : option State :=
  if isEmptyHandle j then None
  else if decide (i < getNumU st)%nat
       then Some (set_stateForces (<[i:=f]> (stateForces st)) st)
       else None.

Definition set_integ (st : State) (p : SimbodyPhysics) : SimbodyPhysics :=
  {| simbodyPhysicsInitialized := simbodyPhysicsInitialized p;
     simbodyPhysicsStepped := simbodyPhysicsStepped p;
     integ := st |}.
Definition set_simbodyQ (l : list float) (j : Joint) : Joint :=
  {| isEmptyHandle := isEmptyHandle j;
     physicsInitialized := physicsInitialized j;
     simbodyQ := l; simbodyU := simbodyU j |}.
Definition set_simbodyU (l : list float) (j : Joint) : Joint :=
  {| isEmptyHandle := isEmptyHandle j;
     physicsInitialized := physicsInitialized j;
     simbodyQ := simbodyQ j; simbodyU := l |}.

Section Members.

(** Declared in headers that are not part of the sources, and taken as
    parameters: the number of axes of the joint ([GetAngleCount()], which
    bounds every mobility index), the solver's kinematics behind
    [expressVectorInGroundFrame(state, getOutboardFrame(state).z())], and
    [GetAxisFrame(i).RotateVector(GetLocalAxis(i))]. *)
Variable GetAngleCount : nat.
Variable outboardZInGround : State → Vector3.
Variable localAxisInAxisFrame : Joint → nat → Vector3.

(** [this->physicsInitialized &&
     this->simbodyPhysics->simbodyPhysicsInitialized]: the pointer is
    dereferenced only when the first conjunct holds. *)
Definition isInitialized : M bool :=
  j ← getThis;
  if physicsInitialized j
  then p ← getPhysics; ret (simbodyPhysicsInitialized p)
  else ret false.

(** [SimbodyHingeJoint::SetVelocity] *)
Definition SetVelocity (_index : nat) (_rate : float) : M unit :=
  if decide (_index < GetAngleCount)%nat then
    j ← getThis;
    p ← getPhysics;
    st ← lift (mobod_setOneU j (integ p) _index _rate);
    putPhysics (set_integ st p)
  else
    log (gzerr "SetVelocity _index too large.").

(** [SimbodyHingeJoint::GetVelocity] *)
Definition GetVelocity (_index : nat) : M float :=
  if decide (_index < GetAngleCount)%nat then
    ready ← isInitialized;
    if (ready : bool) then
      j ← getThis;
      p ← getPhysics;
      lift (mobod_getOneU j (integ p) _index)
    else
      log (gzdbg "GetVelocity() simbody not yet initialized, initial velocity should be zero until restart from state has been implemented.");;
      ret 0%float
  else
    log (gzerr "Invalid index for joint, returning NaN");;
    ret NaN.

(** [SimbodyHingeJoint::SetForceImpl]: one guard, no [else]. *)
Definition SetForceImpl (_index : nat) (_torque : float) : M unit :=
  j ← getThis;
  if bool_decide (_index < GetAngleCount)%nat && physicsInitialized j then
    p ← getPhysics;
    st ← lift (setOneMobilityForce j (integ p) _index _torque);
    putPhysics (set_integ st p)
  else
    ret tt.

(** [this->simbodyPhysics && this->simbodyPhysics->simbodyPhysicsStepped &&
     _index < this->GetAngleCount()], evaluated left to right. *)
Definition steppedAndInRange (_index : nat) : M bool :=
  nonnull ← hasPhysics;
  if (nonnull : bool)
  then p ← getPhysics;
       ret (simbodyPhysicsStepped p && bool_decide (_index < GetAngleCount)%nat)
  else ret false.

(** [SimbodyHingeJoint::GetGlobalAxis] *)
Definition GetGlobalAxis (_index : nat) : M Vector3 :=
  live ← steppedAndInRange _index;
  if (live : bool) then
    j ← getThis;
    p ← getPhysics;
    if isEmptyHandle j then fault else ret (outboardZInGround (integ p))
  else
    if decide (GetAngleCount ≤ _index)%nat then
      log (gzerr "index out of bound");;
      ret (mkVector3 NaN NaN NaN)
    else
      log (gzdbg "GetGlobalAxis() sibmody physics engine not initialized yet, use local axis and initial pose to compute global axis.");;
      j ← getThis;
      ret (localAxisInAxisFrame j _index).

(** [SimbodyHingeJoint::GetAngleImpl] *)
Definition GetAngleImpl (_index : nat) : M Angle :=
  if decide (_index < GetAngleCount)%nat then
    ready ← isInitialized;
    if (ready : bool) then
      j ← getThis;
      p ← getPhysics;
      q ← lift (mobod_getOneQ j (integ p) _index);
      ret (mkAngle q)
    else
      log (gzdbg "GetAngleImpl() simbody not yet initialized, initial angle should be zero until <initial_angle> is implemented.");;
      ret (mkAngle 0%float)
  else
    log (gzerr "index out of bound");;
    ret (mkAngle NaN).

End Members.

(** [std::vector<double>::resize(n)]: keep the first [n] elements, fill
    with [0.0]. *)
Definition vector_resize (n : nat) (v : list float) : list float :=
  resize n 0%float v.

(** [if (this->simbodyQ.empty()) this->simbodyQ.resize(getNumQ(_state))],
    and the same for [simbodyU]. *)
Definition sizeQ (_state : State) (j : Joint) : Joint :=
  if bool_decide (simbodyQ j = [])
  then set_simbodyQ (vector_resize (getNumQ _state) (simbodyQ j)) j
  else j.
Definition sizeU (_state : State) (j : Joint) : Joint :=
  if bool_decide (simbodyU j = [])
  then set_simbodyU (vector_resize (getNumU _state) (simbodyU j)) j
  else j.

(** The bodies of the four copy loops. *)
Definition saveQ (_state : State) (i : nat) (j : Joint) : option Joint :=
  q ← mobod_getOneQ j _state i;             (* this->simbodyQ[i] = ... *)
  Some (set_simbodyQ (<[i:=q]> (simbodyQ j)) j).
Definition saveU (_state : State) (i : nat) (j : Joint) : option Joint :=
  u ← mobod_getOneU j _state i;
  Some (set_simbodyU (<[i:=u]> (simbodyU j)) j).
Definition restoreQ (j : Joint) (i : nat) (_state : State) : option State :=
  q ← simbodyQ j !! i;                      (* this->simbodyQ[i] *)
  mobod_setOneQ j _state i q.
Definition restoreU (j : Joint) (i : nat) (_state : State) : option State :=
  u ← simbodyU j !! i;
  mobod_setOneU j _state i u.

(** [SimbodyHingeJoint::SaveSimbodyState]:
<<
  if (!this->mobod.isEmptyHandle()) {
    if (this->simbodyQ.empty()) this->simbodyQ.resize(this->mobod.getNumQ(_state));
    if (this->simbodyU.empty()) this->simbodyU.resize(this->mobod.getNumU(_state));
    for (i = 0; i < this->simbodyQ.size(); ++i) this->simbodyQ[i] = this->mobod.getOneQ(_state, i);
    for (i = 0; i < this->simbodyU.size(); ++i) this->simbodyU[i] = this->mobod.getOneU(_state, i);
  }
>> *)
Definition SaveSimbodyState (_state : State) : M unit :=
  j ← getThis;
  if negb (isEmptyHandle j) then
    (j ← getThis; putThis (sizeQ _state j));;
    (j ← getThis; putThis (sizeU _state j));;
    j ← getThis;
    j ← lift (for_upto (length (simbodyQ j)) (saveQ _state) j);
    j ← lift (for_upto (length (simbodyU j)) (saveU _state) j);
    putThis j
  else
    ret tt.

(** [SimbodyHingeJoint::RestoreSimbodyState]:
<<
  if (!this->mobod.isEmptyHandle()) {
    for (i = 0; i < this->simbodyQ.size(); ++i) this->mobod.setOneQ(_state, i, this->simbodyQ[i]);
    for (i = 0; i < this->simbodyU.size(); ++i) this->mobod.setOneU(_state, i, this->simbodyU[i]);
  }
>>
    [_state] is passed by reference; the result is [_state] after the
    call. *)
Definition RestoreSimbodyState (_state : State) : M State :=
  j ← getThis;
  if negb (isEmptyHandle j) then
    st ← lift (for_upto (length (simbodyQ j)) (restoreQ j) _state);
    lift (for_upto (length (simbodyU j)) (restoreU j) st)
  else
    ret _state.

(** [SimbodyHingeJoint::SetAxis], [SetMaxForce], [GetMaxForce]: a debug
    message each, the arguments are not used. *)
Definition SetAxis (_index : nat) (_axis : Vector3) : M unit :=
  log (gzdbg "SetAxis: setting axis is not yet implemented.  The axis are set  during joint construction in SimbodyPhysics.cc for now.").

(** ** Conditions on a call *)

(** The engine reports initialised, and so does the joint: the condition
    under which [GetVelocity] and [GetAngleImpl] read the solver. *)
Definition ready (w : World) : Prop :=
  physicsInitialized (this w) = true
  ∧ ∃ p, simbodyPhysics w = Some p ∧ simbodyPhysicsInitialized p = true.

Definition not_ready (w : World) : Prop :=
  physicsInitialized (this w) = false
  ∨ ∃ p, simbodyPhysics w = Some p ∧ simbodyPhysicsInitialized p = false.

(** A computation that, when it returns, has changed neither the joint
    nor the engine. *)
Definition reads_only {A : Type} (m : M A) : Prop :=
  ∀ w a w', m w = Some (a, w') →
    this w' = this w ∧ simbodyPhysics w' = simbodyPhysics w.

(** The joint is bound to its mobilizer: the handle is not empty. *)
Definition bound (j : Joint) : Prop := isEmptyHandle j = false.

(** The cache is empty or has the counts that the solver reports for the
    joint: the invariant of the data model (sized once, by the first
    snapshot). *)
Definition cache_sized (j : Joint) (st : State) : Prop :=
  (simbodyQ j = [] ∨ length (simbodyQ j) = getNumQ st)
  ∧ (simbodyU j = [] ∨ length (simbodyU j) = getNumU st).

(** Same lengths of the two cached sequences. *)
Definition same_size (a b : Joint) : Prop :=
  length (simbodyQ b) = length (simbodyQ a)
  ∧ length (simbodyU b) = length (simbodyU a).

(** The cache does not address more than the state holds. *)
Definition cache_fits (j : Joint) (st : State) : Prop :=
  (length (simbodyQ j) ≤ getNumQ st)%nat
  ∧ (length (simbodyU j) ≤ getNumU st)%nat.

(** A write that the joint rejects as the specification words it: an
    error is logged and nothing else changes. *)
Definition logged_and_ignored (op : nat → float → M unit) (N : nat) : Prop :=
  ∀ (w : World) (i : nat) (v : float), (N ≤ i)%nat →
    ∃ text, op i v w = Some (tt, say (gzerr text) w).

(** ** Sample inputs *)

(** A hinge joint (one axis) bound to its mobilizer, in an engine that has
    been initialised and stepped, at angle 0.5 with velocity -2. *)
Definition hinge : Joint :=
  {| isEmptyHandle := false; physicsInitialized := true;
     simbodyQ := []; simbodyU := [] |}.

Definition live_state : State :=
  {| stateQ := [0.5%float]; stateU := [(-2)%float];
     stateForces := [0%float] |}.

Definition running : World :=
  {| this := hinge;
     simbodyPhysics := Some {| simbodyPhysicsInitialized := true;
                               simbodyPhysicsStepped := true;
                               integ := live_state |};
     console := [] |}.

(** The same joint before the engine is initialised. *)
Definition starting : World :=
  {| this := {| isEmptyHandle := false; physicsInitialized := false;
                simbodyQ := []; simbodyU := [] |};
     simbodyPhysics := Some {| simbodyPhysicsInitialized := false;
                               simbodyPhysicsStepped := false;
                               integ := State_zero 1 1 |};
     console := [] |}.

(** The running joint after a first snapshot. *)
Definition snapshotted : World :=
  set_this (set_simbodyU [(-2)%float] (set_simbodyQ [0.5%float] hinge)) running.

(** The state one step later. *)
Definition later_state : State :=
  {| stateQ := [0.25%float]; stateU := [(-3)%float];
     stateForces := [0%float] |}.

Definition unit_z (st : State) : Vector3 := mkVector3 0%float 0%float 1%float.
Definition unit_x (j : Joint) (i : nat) : Vector3 :=
  mkVector3 1%float 0%float 0%float.

End SimbodyHingeJoint.

(* ===================================================================== *)
(** * Link.cc *)
(* ===================================================================== *)

Module Link.

(** A child of the link ([Base]): its name, and whether the object is a
    [Collision], which is what [shared_dynamic_cast<Collision>] tests. *)
Record Base : Type := mkBase {
  GetName : string;
  isCollision : bool
}.

(** [Link::GetCollision]:
<<
  CollisionPtr result;
  for (biter=this->children.begin(); biter != this->children.end(); biter++)
    if (it->GetName() == _name) {          // it: the element at biter
      result = boost::shared_dynamic_cast<Collision>(it);
      break;
    }
  return result;
>>
    [None] is the empty pointer. *)
Fixpoint GetCollision (children : list Base) (_name : string) : option Base :=
  match children with
  | [] => None
  | b :: rest =>
      if bool_decide (GetName b = _name)
      then (if isCollision b then Some b else None)
      else GetCollision rest _name
  end.

(** A visual and a collision of the same name, the visual first. *)
Definition sample_children : list Base :=
  [ {| GetName := "base"; isCollision := true |};
    {| GetName := "wheel"; isCollision := false |};
    {| GetName := "wheel"; isCollision := true |} ].

End Link.

(* ===================================================================== *)
(** * Properties of the controller *)
(* ===================================================================== *)

Module ControllerFacts.
Import Controller.

(** ** The gate *)

Lemma Qfloor_nonneg (x : Q) : 0 <= Qfloor x ↔ (0 <= x)%Q.
Proof.
  split; intros H.
  - apply Qle_trans with (inject_Z (Qfloor x)); [|apply Qfloor_le].
    change 0%Q with (inject_Z 0). now rewrite <- Zle_Qle.
  - rewrite <- (Qfloor_Z 0). now apply Qfloor_resp_le.
Qed.

Lemma due_gate_spec (s : Sim) (c : Controller) :
  due s c = true ↔
  gate_spec (GetSimTime s) (lastUpdate c) (updatePeriod c) (GetStepTime s).
Proof.
  unfold due, gate_spec. rewrite Qle_bool_iff. symmetry. apply Qfloor_nonneg.
Qed.

Lemma cons_neq {A} (x : A) (l : list A) : l ≠ x :: l.
Proof.
  intros H. apply (f_equal length) in H. simpl in H. lia.
Qed.

Lemma Update_connected (s : Sim) (c : Controller) :
  IsConnected s c = Some true →
  Update s c =
  Some (if due s c
        then set_lastUpdate (GetSimTime s) (call UpdateChild c)
        else c).
Proof.
  intros H. unfold Update. rewrite H. simpl. now destruct (due s c).
Qed.

Lemma due_example_early (s : Sim) (c : Controller) :
  (lastUpdate c == 0)%Q → (updatePeriod c == 0.1)%Q →
  (GetStepTime s == 0.01)%Q → (GetSimTime s == 0.09)%Q →
  due s c = false.
Proof.
  intros Hl Hp Hd Ht. unfold due.
  destruct (Qle_bool _ _) eqn:E; [|reflexivity].
  apply Qle_bool_iff in E. rewrite Hl, Hp, Hd, Ht in E.
  exfalso. revert E. unfold Qle. simpl. lia.
Qed.

Lemma due_example_on_time (s : Sim) (c : Controller) :
  (lastUpdate c == 0)%Q → (updatePeriod c == 0.1)%Q →
  (GetStepTime s == 0.01)%Q → (GetSimTime s == 0.10)%Q →
  due s c = true.
Proof.
  intros Hl Hp Hd Ht. unfold due.
  apply Qle_bool_iff. rewrite Hl, Hp, Hd, Ht. unfold Qle. simpl. lia.
Qed.

(** C1. For a controller that is active ([IsConnected()] is true, which
    is the guard [IsConnected() || alwaysOn] of [Update]), [Update] runs
    [UpdateChild] if and only if
    [floor((simTime - lastUpdate - updatePeriod) / physics_dt) >= 0]; when
    it does, [lastUpdate] becomes the simulation time, and otherwise the
    controller is unchanged.  With [lastUpdate = 0], [updatePeriod = 0.1]
    and a step of [0.01], the update at time [0.09] does nothing and the
    one at time [0.10] runs and sets [lastUpdate] to [0.10]. *)
Theorem Update_rate_gate (s : Sim) (c : Controller) :
  IsConnected s c = Some true →
  (∃ c', Update s c = Some c'
     ∧ (hooks c' = UpdateChild :: hooks c ↔
        gate_spec (GetSimTime s) (lastUpdate c) (updatePeriod c) (GetStepTime s))
     ∧ (gate_spec (GetSimTime s) (lastUpdate c) (updatePeriod c) (GetStepTime s) →
        c' = set_lastUpdate (GetSimTime s) (call UpdateChild c)
        ∧ lastUpdate c' = GetSimTime s)
     ∧ (¬ gate_spec (GetSimTime s) (lastUpdate c) (updatePeriod c) (GetStepTime s) →
        c' = c))
  ∧ ((lastUpdate c == 0)%Q → (updatePeriod c == 0.1)%Q →
     (GetStepTime s == 0.01)%Q →
     ((GetSimTime s == 0.09)%Q → Update s c = Some c)
     ∧ ((GetSimTime s == 0.10)%Q →
        ∃ c', Update s c = Some c'
              ∧ hooks c' = UpdateChild :: hooks c
              ∧ lastUpdate c' = GetSimTime s)).
Proof.
  intros Hact. pose proof (Update_connected s c Hact) as HU.
  pose proof (due_gate_spec s c) as Hg. split.
  - eexists. split; [exact HU|]. destruct (due s c) eqn:E.
    + assert (G : gate_spec (GetSimTime s) (lastUpdate c) (updatePeriod c)
                    (GetStepTime s)) by now apply Hg.
      split; [split; auto|]. split; [auto|]. intros nG. now destruct nG.
    + assert (nG : ¬ gate_spec (GetSimTime s) (lastUpdate c) (updatePeriod c)
                    (GetStepTime s)).
      { intros G. apply Hg in G. discriminate. }
      split; [|split; [intros G; now destruct nG | auto]].
      split; [|intros G; now destruct nG].
      intros H. destruct (cons_neq _ _ H).
  - intros Hl Hp Hd. split; intros Ht.
    + now rewrite HU, (due_example_early s c Hl Hp Hd Ht).
    + rewrite HU, (due_example_on_time s c Hl Hp Hd Ht). eauto.
Qed.

(** The sample numbers in binary64: the rounding of 0.09, 0.1 and 0.01 to
    the nearest [double] does not move either decision, and 1.0/10 is the
    [double] that the literal 0.1 denotes. *)
Set Warnings "-inexact-float".
Example due64_samples :
  due64 0.09 0 0.1 0.01 = false
  ∧ due64 0.10 0 0.1 0.01 = true
  ∧ (period64 10 =? 0.1)%float = true
  ∧ (period64 0 =? 0)%float = true.
Proof. repeat split; vm_compute; reflexivity. Qed.
Set Warnings "inexact-float".

(** C1 at a sample: an opened interface, rate 10, step 0.01, time 0.10. *)
Lemma Update_rate_gate_witness :
  IsConnected (sample_sim_open 0.10%Q) sample_controller = Some true
  ∧ Update (sample_sim_open 0.10%Q) sample_controller =
    Some (set_lastUpdate 0.10%Q (call UpdateChild sample_controller))
  ∧ Update (sample_sim_open 0.09%Q) sample_controller = Some sample_controller.
Proof.
  assert (H10 : IsConnected (sample_sim_open 0.10%Q) sample_controller = Some true)
    by reflexivity.
  assert (H09 : IsConnected (sample_sim_open 0.09%Q) sample_controller = Some true)
    by reflexivity.
  split; [exact H10|]. split.
  - destruct (Update_rate_gate _ _ H10) as [[c' [HU [_ [Hrun _]]]] _].
    rewrite HU. f_equal. apply Hrun.
    unfold gate_spec. vm_compute. discriminate.
  - destruct (Update_rate_gate _ _ H09) as [_ Hex].
    apply Hex; reflexivity.
Defined.

(** ** The update period *)


(** ** Activity *)

Lemma any_open_total (h : gmap addr Iface) (l : list addr) :
  (∀ a, a ∈ l → is_Some (h !! a)) →
  ∃ b, any_open h l = Some b
       ∧ (b = true ↔
          ∃ a i, a ∈ l ∧ h !! a = Some i ∧ 1 <= GetOpenCount i).
Proof.
  induction l as [|a l IH]; intros Hl; simpl.
  - exists false. split; [reflexivity|]. split; [discriminate|].
    intros (a & i & Ha & _). now apply elem_of_nil in Ha.
  - destruct (Hl a) as [i Hi]; [left|]. rewrite Hi.
    destruct (0 <? GetOpenCount i) eqn:E.
    + exists true. split; [reflexivity|]. split; [|reflexivity].
      intros _. exists a, i. apply Z.ltb_lt in E.
      split; [left|]. split; [assumption|lia].
    + destruct IH as (b & Hb & Hiff).
      { intros a' Ha'. apply Hl. now right. }
      exists b. split; [assumption|]. rewrite Hiff.
      apply Z.ltb_ge in E. split.
      * intros (a' & i' & Ha' & Hi' & Hc). exists a', i'.
        split; [now right|]. now split.
      * intros (a' & i' & Ha' & Hi' & Hc).
        apply elem_of_cons in Ha' as [->|Ha'].
        -- rewrite Hi in Hi'. injection Hi' as <-. lia.
        -- exists a', i'. now repeat split.
Qed.

(** The guard of [Update], [IsConnected() || alwaysOn], is [IsConnected()]. *)
Lemma Update_guard (s : Sim) (c : Controller) (b : bool) :
  IsConnected s c = Some b → b || alwaysOnP c = b.
Proof.
  unfold IsConnected. destruct (alwaysOnP c).
  - intros [= <-]. reflexivity.
  - intros _. apply orb_false_r.
Qed.

(** C7. The controller is active ([IsConnected()]) if and only if
    [alwaysOn] is set or some attached interface has an open count of at
    least one.  Without interfaces it is active iff [alwaysOn]; with one
    interface of count 0 and [alwaysOn] false it is not active, and it is
    once that count is raised to 1, the controller itself being the
    same. *)
Theorem IsConnected_iff (s : Sim) (c : Controller) :
  live s c →
  (∃ b, IsConnected s c = Some b
        ∧ (b = true ↔
           alwaysOnP c = true
           ∨ ∃ a i, a ∈ ifaces c ∧ objects s !! a = Some i
                    ∧ 1 <= GetOpenCount i))
  ∧ (ifaces c = [] → IsConnected s c = Some (alwaysOnP c))
  ∧ (∀ a i, ifaces c = [a] → alwaysOnP c = false →
            objects s !! a = Some i → GetOpenCount i = 0 →
            IsConnected s c = Some false
            ∧ IsConnected
                (set_objects (<[a := set_GetOpenCount 1 i]> (objects s)) s) c =
              Some true).
Proof.
  intros Hl. unfold IsConnected. repeat split.
  - destruct (alwaysOnP c) eqn:Ea.
    + exists true. split; [reflexivity|]. split; auto.
    + destruct (any_open_total (objects s) (ifaces c) Hl) as (b & Hb & Hiff).
      exists b. split; [assumption|]. rewrite Hiff. split; [auto|].
      intros [H|H]; [discriminate|assumption].
  - intros ->. now destruct (alwaysOnP c).
  - rewrite H0, H. simpl. rewrite H1, H2. reflexivity.
  - rewrite H0, H. simpl. rewrite lookup_insert_eq. reflexivity.
Qed.

(** C7 at the sample controller and its unopened interface. *)
Lemma IsConnected_iff_witness :
  IsConnected (sample_sim 0%Q) sample_controller = Some false
  ∧ IsConnected (sample_sim_open 0%Q) sample_controller = Some true.
Proof.
  assert (Hl : live (sample_sim 0%Q) sample_controller).
  { intros a Ha. apply list_elem_of_singleton in Ha as ->. now exists laser. }
  destruct (IsConnected_iff _ _ Hl) as (_ & _ & H).
  destruct (H 1%positive laser eq_refl eq_refl eq_refl eq_refl) as [H0 H1].
  split; [exact H0|]. exact H1.
Defined.

(** ** Finalisation *)

Lemma delete_each_total (l : list addr) (h : gmap addr Iface) :
  NoDup l → (∀ a, a ∈ l → is_Some (h !! a)) →
  ∃ h', delete_each l h = Some h'
        ∧ (∀ a, a ∈ l → h' !! a = None)
        ∧ (∀ a, a ∉ l → h' !! a = h !! a).
Proof.
  revert h. induction l as [|a l IH]; intros h Hnd Hl; simpl.
  - exists h. split; [reflexivity|]. split; [|reflexivity].
    intros a Ha. now apply elem_of_nil in Ha.
  - apply NoDup_cons in Hnd as [Ha Hnd].
    destruct (Hl a) as [i Hi]; [left|]. rewrite Hi.
    destruct (IH (delete a h) Hnd) as (h' & Hd & Hin & Hout).
    { intros a' Ha'. rewrite lookup_delete_ne.
      - apply Hl. now right.
      - intros ->. contradiction. }
    exists h'. split; [assumption|]. split.
    + intros a' Ha'. apply elem_of_cons in Ha' as [->|Ha'].
      * rewrite (Hout a Ha). apply lookup_delete_eq.
      * now apply Hin.
    + intros a' Ha'. apply not_elem_of_cons in Ha' as [Hne Ha'].
      rewrite (Hout a' Ha'). now apply lookup_delete_ne.
Qed.

Lemma IsConnected_detached (s : Sim) (c : Controller) :
  alwaysOnP c = false → ifaces c = [] → IsConnected s c = Some false.
Proof. intros Ha Hi. unfold IsConnected. now rewrite Ha, Hi. Qed.

(** Once no interface is attached and [alwaysOn] is off, every member
    function keeps it so. *)
Lemma step_detached (o : Op) (c c' : Controller) (s s' : Sim) :
  alwaysOnP c = false → ifaces c = [] →
  step o (c, s) = Some (c', s') →
  alwaysOnP c' = false ∧ ifaces c' = [].
Proof.
  intros Ha Hi. destruct o as [rate| | |]; simpl.
  - intros [= <- <-]. unfold SetUpdateRate.
    now destruct (Qeq_bool rate 0).
  - intros [= <- <-]. now split.
  - unfold Update. rewrite (IsConnected_detached s c Ha Hi). simpl.
    rewrite Ha. simpl. intros [= <- <-]. now split.
  - unfold Fini. rewrite Hi. simpl. intros [= <- <-]. now split.
Qed.

(** C9. For a controller with [alwaysOn] false whose interfaces are
    attached, [Fini] completes, deletes every attached interface object
    and leaves the collection empty; afterwards [IsConnected()] is false
    whatever the environment has become, and stays false after any
    further call of a member function. *)
Theorem Fini_not_active (s : Sim) (c : Controller) :
  alwaysOnP c = false → attached s c →
  ∃ c' s', Fini s c = Some (c', s')
    ∧ ifaces c' = []
    ∧ (∀ a, a ∈ ifaces c → objects s' !! a = None)
    ∧ (∀ a, a ∉ ifaces c → objects s' !! a = objects s !! a)
    ∧ (∀ s'', IsConnected s'' c' = Some false)
    ∧ (∀ o s1 c2 s2, step o (c', s1) = Some (c2, s2) →
                     ∀ s'', IsConnected s'' c2 = Some false).
Proof.
  intros Ha [Hnd Hl]. unfold Fini.
  destruct (delete_each_total (ifaces c) (objects s) Hnd Hl)
    as (h' & Hd & Hin & Hout).
  rewrite Hd. simpl. eexists _, _. split; [reflexivity|]. simpl.
  split; [reflexivity|]. split; [assumption|]. split; [assumption|]. split.
  - intros s''. now apply IsConnected_detached.
  - intros o s1 c2 s2 Hstep s''.
    destruct (step_detached o (call FiniChild (set_ifaces [] c)) c2 s1 s2
                Ha eq_refl Hstep) as [Ha2 Hi2].
    now apply IsConnected_detached.
Qed.

(** C9 at the sample controller, its interface opened by a client. *)
Lemma Fini_not_active_witness :
  ∃ c' s', Fini (sample_sim_open 0%Q) sample_controller = Some (c', s')
           ∧ ifaces c' = []
           ∧ objects s' !! 1%positive = None
           ∧ IsConnected (sample_sim_open 0%Q) c' = Some false.
Proof.
  assert (Hatt : attached (sample_sim_open 0%Q) sample_controller).
  { split.
    - apply NoDup_singleton.
    - intros a Ha. apply list_elem_of_singleton in Ha as ->.
      now exists (set_GetOpenCount 1 laser). }
  destruct (Fini_not_active (sample_sim_open 0%Q) sample_controller eq_refl Hatt)
    as (c' & s' & HF & Hi & Hgone & _ & Hoff & _).
  exists c', s'. split; [exact HF|]. split; [exact Hi|]. split.
  - apply Hgone. left.
  - apply Hoff.
Defined.

(** ** More on the schedule *)

Lemma Qdiv_nonneg (x d : Q) : (0 < d)%Q → (0 <= x / d)%Q ↔ (0 <= x)%Q.
Proof.
  intros Hd. split; intros H.
  - rewrite <- (Qmult_div_r x d) by lra.
    apply Qmult_le_0_compat; [lra|exact H].
  - apply Qle_shift_div_l; [exact Hd|lra].
Qed.

Lemma due_elapsed (s : Sim) (c : Controller) :
  (0 < GetStepTime s)%Q →
  due s c = true ↔ (lastUpdate c + updatePeriod c <= GetSimTime s)%Q.
Proof.
  intros Hd. unfold due. rewrite Qle_bool_iff, (Qdiv_nonneg _ _ Hd).
  split; intros H; lra.
Qed.

(** X1. With a positive physics step the comparison of [Update] holds
    exactly when the simulation time has reached [lastUpdate +
    updatePeriod]: the division by the step does not move the decision. *)
Theorem due_iff_period_elapsed (s : Sim) (c : Controller) :
  (0 < GetStepTime s)%Q →
  due s c = true ↔ (lastUpdate c + updatePeriod c <= GetSimTime s)%Q.
Proof. exact (due_elapsed s c). Qed.

Lemma due_iff_period_elapsed_witness :
  due (sample_sim_open 0.25%Q) sample_controller = true.
Proof.
  apply (due_iff_period_elapsed (sample_sim_open 0.25%Q) sample_controller).
  - reflexivity.
  - vm_compute. discriminate.
Defined.

(** X2. With a positive step, an [Update] that runs [UpdateChild] does so
    no earlier than [updatePeriod] after the previous one: the new
    [lastUpdate] is the simulation time and is at least the old
    [lastUpdate] plus the period. *)
Theorem Update_rate_limit (s : Sim) (c c' : Controller) :
  (0 < GetStepTime s)%Q →
  Update s c = Some c' → hooks c' = UpdateChild :: hooks c →
  lastUpdate c' = GetSimTime s
  ∧ (lastUpdate c + updatePeriod c <= lastUpdate c')%Q.
Proof.
  intros Hd. unfold Update.
  destruct (IsConnected s c) as [b|]; simpl; [|discriminate].
  destruct (b || alwaysOnP c); [destruct (due s c) eqn:E|].
  - intros [= <-] _. simpl. split; [reflexivity|].
    now apply due_elapsed.
  - intros [= <-] H. destruct (cons_neq _ _ H).
  - intros [= <-] H. destruct (cons_neq _ _ H).
Qed.

Lemma Update_rate_limit_witness :
  (lastUpdate sample_controller + updatePeriod sample_controller <= 0.25)%Q.
Proof.
  assert (Hd : (0 < GetStepTime (sample_sim_open 0.25%Q))%Q) by reflexivity.
  destruct (Update_rate_limit (sample_sim_open 0.25%Q) sample_controller
              (set_lastUpdate 0.25%Q (call UpdateChild sample_controller))
              Hd eq_refl eq_refl) as [_ H].
  exact H.
Defined.

(** X3. With a positive step and a positive period, a second [Update] at
    the same simulation time changes nothing: the domain work runs at
    most once per tick. *)
Theorem Update_same_tick_once (s : Sim) (c c1 : Controller) :
  (0 < GetStepTime s)%Q → (0 < updatePeriod c)%Q →
  Update s c = Some c1 → Update s c1 = Some c1.
Proof.
  intros Hd Hp. unfold Update.
  destruct (IsConnected s c) as [b|] eqn:Ec; simpl; [|discriminate].
  destruct (b || alwaysOnP c) eqn:Eb; [destruct (due s c) eqn:E|].
  - intros [= <-].
    change (IsConnected s (set_lastUpdate (GetSimTime s) (call UpdateChild c)))
      with (IsConnected s c).
    rewrite Ec. simpl. rewrite Eb.
    assert (N : due s (set_lastUpdate (GetSimTime s) (call UpdateChild c))
                = false).
    { apply not_true_is_false. intros E'.
      apply (due_elapsed _ _ Hd) in E'. simpl in E'. lra. }
    now rewrite N.
  - intros [= <-]. rewrite Ec. simpl. now rewrite Eb, E.
  - intros [= <-]. rewrite Ec. simpl. now rewrite Eb.
Qed.

Lemma Update_same_tick_once_witness :
  Update (sample_sim_open 0.25%Q)
    (set_lastUpdate 0.25%Q (call UpdateChild sample_controller)) =
  Some (set_lastUpdate 0.25%Q (call UpdateChild sample_controller)).
Proof.
  apply (Update_same_tick_once (sample_sim_open 0.25%Q) sample_controller);
    reflexivity.
Defined.

(** X4. After [SetUpdateRate(0)] an active controller runs [UpdateChild]
    at every [Update] whose simulation time is not before [lastUpdate]
    (positive step): rate 0 means every tick. *)
Theorem Update_rate_zero_every_tick (s : Sim) (c : Controller) :
  IsConnected s c = Some true → (0 < GetStepTime s)%Q →
  (lastUpdate c <= GetSimTime s)%Q →
  Update s (SetUpdateRate 0 c) =
  Some (set_lastUpdate (GetSimTime s) (call UpdateChild (SetUpdateRate 0 c))).
Proof.
  intros Hc Hd Ht. rewrite Update_connected by exact Hc.
  assert (E : due s (SetUpdateRate 0 c) = true).
  { apply (due_elapsed _ _ Hd). simpl. lra. }
  now rewrite E.
Qed.

Lemma Update_rate_zero_every_tick_witness :
  ∃ c', Update (sample_sim_open 0.01%Q) (SetUpdateRate 0 sample_controller) =
        Some c' ∧ hooks c' = [UpdateChild].
Proof.
  eexists. split.
  - apply (Update_rate_zero_every_tick (sample_sim_open 0.01%Q)
             sample_controller); [reflexivity|reflexivity|].
    vm_compute. discriminate.
  - reflexivity.
Defined.

(** X5. [Update] never touches [alwaysOn], the rate, the period or the
    interfaces; it either leaves the controller as it was or records one
    [UpdateChild] and sets [lastUpdate] to the simulation time, and a
    controller that is not connected is left as it was. *)
Theorem Update_frame (s : Sim) (c c' : Controller) :
  Update s c = Some c' →
  alwaysOnP c' = alwaysOnP c ∧ updateRateP c' = updateRateP c
  ∧ updatePeriod c' = updatePeriod c ∧ ifaces c' = ifaces c
  ∧ (c' = c ∨ (hooks c' = UpdateChild :: hooks c
               ∧ lastUpdate c' = GetSimTime s))
  ∧ (IsConnected s c = Some false → c' = c).
Proof.
  unfold Update.
  destruct (IsConnected s c) as [b|] eqn:Ec; simpl; [|discriminate].
  destruct (b || alwaysOnP c) eqn:Eb; [destruct (due s c)|];
    intros [= <-]; simpl; repeat split; auto.
  intros [= ->]. simpl in Eb. unfold IsConnected in Ec.
  rewrite Eb in Ec. discriminate.
Qed.

Lemma Update_frame_witness :
  ifaces (set_lastUpdate 0.25%Q (call UpdateChild sample_controller)) =
  ifaces sample_controller.
Proof.
  destruct (Update_frame (sample_sim_open 0.25%Q) sample_controller
              (set_lastUpdate 0.25%Q (call UpdateChild sample_controller))
              eq_refl) as (_ & _ & _ & H & _).
  exact H.
Defined.


(** ** More on finalisation *)

Lemma delete_each_Some (l : list addr) (h h' : gmap addr Iface) :
  delete_each l h = Some h' →
  NoDup l ∧ ∀ a, a ∈ l → is_Some (h !! a).
Proof.
  revert h. induction l as [|a l IH]; intros h; simpl.
  - intros _. split; [constructor|]. intros a Ha.
    now apply elem_of_nil in Ha.
  - destruct (h !! a) as [i|] eqn:Hi; [|discriminate]. intros Hd.
    destruct (IH _ Hd) as [Hnd Hl]. split.
    + constructor; [|exact Hnd]. intros Ha.
      destruct (Hl a Ha) as [x Hx]. rewrite lookup_delete_eq in Hx.
      discriminate.
    + intros a' Ha'. apply elem_of_cons in Ha' as [->|Ha'].
      * now exists i.
      * destruct (Hl a' Ha') as [x Hx].
        destruct (decide (a = a')) as [->|Hne].
        -- rewrite lookup_delete_eq in Hx. discriminate.
        -- rewrite lookup_delete_ne in Hx by exact Hne. now exists x.
Qed.

(** X7. [Fini] completes exactly when every attached pointer is live and
    no interface object is attached twice: a dangling or repeated
    pointer makes one of its [delete]s a fault. *)
Theorem Fini_completes_iff_attached (s : Sim) (c : Controller) :
  is_Some (Fini s c) ↔ attached s c.
Proof.
  unfold Fini, attached, live. split.
  - intros [[c' s'] H].
    destruct (delete_each (ifaces c) (objects s)) as [h'|] eqn:E;
      [|discriminate].
    exact (delete_each_Some _ _ _ E).
  - intros [Hnd Hl].
    destruct (delete_each_total _ _ Hnd Hl) as (h' & -> & _). simpl. eauto.
Qed.

(** X8. A second [Fini] after one that completed deletes nothing: it
    returns with the same object store and the interface collection still
    empty, recording only the [FiniChild] call. *)
Theorem Fini_twice (s s1 : Sim) (c c1 : Controller) :
  Fini s c = Some (c1, s1) →
  Fini s1 c1 = Some (call FiniChild c1, s1) ∧ ifaces c1 = [].
Proof.
  unfold Fini.
  destruct (delete_each (ifaces c) (objects s)) as [h'|]; simpl;
    [|discriminate].
  intros [= <- <-]. simpl. split; reflexivity.
Qed.

Lemma Fini_twice_witness :
  ∃ c1 s1, Fini (sample_sim_open 0%Q) sample_controller = Some (c1, s1)
           ∧ Fini s1 c1 = Some (call FiniChild c1, s1).
Proof.
  eexists _, _. split; [reflexivity|].
  apply (Fini_twice (sample_sim_open 0%Q) _ sample_controller). reflexivity.
Defined.

(** ** Looking up interfaces *)

Lemma GetIface_loop_total (h : gmap addr Iface) (type : string)
    (l : list addr) (order : Z) (iface : option addr) :
  (∀ a, a ∈ l → is_Some (h !! a)) →
  GetIface_loop h type l order iface =
  Some (let m := filter (λ a, GetType <$> h !! a = Some type) l in
        if decide (0 <= order < Z.of_nat (length m))
        then (0, last m)
        else (order - Z.of_nat (length m), iface)).
Proof.
  revert order iface. induction l as [|a l IH]; intros order iface Hl; simpl.
  - case_decide; [lia|]. do 2 f_equal. lia.
  - destruct (Hl a) as [i Hi]; [left|]. rewrite Hi. simpl.
    assert (Hl' : ∀ a', a' ∈ l → is_Some (h !! a'))
      by (intros a' Ha'; apply Hl; now right).
    destruct (bool_decide (GetType i = type)) eqn:Et.
    + apply bool_decide_eq_true_1 in Et.
      rewrite filter_cons_True by (rewrite Hi; simpl; now rewrite Et).
      set (m := filter _ l) in *.
      assert (Hm : last (a :: m) =
                   if decide (length m = 0%nat) then Some a else last m).
      { rewrite last_cons. destruct m as [|x m']; [reflexivity|].
        case_decide; [discriminate|].
        destruct (last (x :: m')) eqn:El; [reflexivity|].
        now apply last_None in El. }
      destruct (order =? 0) eqn:Eo.
      * apply Z.eqb_eq in Eo. subst order. rewrite (IH 0 (Some a) Hl').
        cbv zeta. fold m. rewrite Hm. simpl length.
        repeat case_decide; try reflexivity; try lia;
          do 2 f_equal; lia.
      * apply Z.eqb_neq in Eo. rewrite (IH (order - 1) iface Hl').
        cbv zeta. fold m. rewrite Hm. simpl length.
        repeat case_decide; try reflexivity; try lia;
          do 2 f_equal; lia.
    + apply bool_decide_eq_false_1 in Et.
      rewrite filter_cons_False
        by (rewrite Hi; simpl; intros [= E]; now destruct Et).
      now apply IH.
Qed.

(** X19. With every attached pointer live, [GetIface(type, mandatory,
    number)] returns the last attached interface of that type whenever
    [0 <= number] and more than [number] interfaces of the type are
    attached (the loop keeps assigning once [order] is 0), so it is the
    [number]-th one only when that is the last; otherwise the pointer is
    null, which is thrown as an exception if [mandatory] and returned if
    not.  A pointer that is returned is attached and has the type. *)
Theorem GetIface_last (type : string) (mandatory : bool) (number : Z)
    (s : Sim) (o : Object) :
  live s (core o) →
  GetIface type mandatory number s o =
  Some (if decide (0 <= number
                   < Z.of_nat (length (of_type s (core o) type)))
        then Returned (last (of_type s (core o) type))
        else if mandatory
             then Thrown ("Controller " +:+ GetName o +:+ "trying to get "
                          +:+ type +:+ " interface but it is not defined")
             else Returned None)
  ∧ ∀ a, GetIface type mandatory number s o = Some (Returned (Some a)) →
         a ∈ ifaces (core o) ∧ GetType <$> objects s !! a = Some type.
Proof.
  intros Hl.
  assert (E : GetIface type mandatory number s o =
    Some (if decide (0 <= number
                     < Z.of_nat (length (of_type s (core o) type)))
          then Returned (last (of_type s (core o) type))
          else if mandatory
               then Thrown ("Controller " +:+ GetName o +:+ "trying to get "
                            +:+ type +:+ " interface but it is not defined")
               else Returned None)).
  { unfold GetIface. rewrite (GetIface_loop_total _ _ _ _ _ Hl). simpl.
    fold (of_type s (core o) type).
    destruct (decide (0 <= number
                      < Z.of_nat (length (of_type s (core o) type)))); simpl.
    - destruct (last (of_type s (core o) type)) eqn:El; [reflexivity|].
      apply last_None in El. rewrite El in *. simpl in *. lia.
    - now destruct mandatory. }
  split; [exact E|]. intros a. rewrite E.
  destruct (decide _); [|destruct mandatory; discriminate].
  intros [= Hlast]. apply last_Some in Hlast as [l' Hl'].
  assert (Ha : a ∈ of_type s (core o) type).
  { rewrite Hl'. apply elem_of_app. right. now left. }
  unfold of_type in Ha. apply list_elem_of_filter in Ha as [Ht Ha].
  now split.
Qed.

Lemma GetInterfaceNames_loop_total (h : gmap addr Iface) (l : list addr)
    (names : list string) :
  (∀ a, a ∈ l → is_Some (h !! a)) →
  ∃ added, GetInterfaceNames_loop h l names = Some (names ++ added)
    ∧ length added = length l
    ∧ ∀ k a i, l !! k = Some a → h !! a = Some i →
               added !! k = Some (GetId i +:+ ">>" +:+ GetType i).
Proof.
  revert names. induction l as [|a l IH]; intros names Hl; simpl.
  - exists []. rewrite app_nil_r. split; [reflexivity|].
    split; [reflexivity|]. intros k a i Hk. discriminate.
  - destruct (Hl a) as [i Hi]; [left|]. rewrite Hi. simpl.
    destruct (IH (names ++ [GetId i +:+ ">>" +:+ GetType i]))
      as (added & Hr & Hlen & Hk).
    { intros a' Ha'. apply Hl. now right. }
    exists ((GetId i +:+ ">>" +:+ GetType i) :: added).
    rewrite Hr, <- app_assoc. split; [reflexivity|].
    split; [simpl; now rewrite Hlen|].
    intros [|k] a' i'; simpl.
    + intros [= <-]. rewrite Hi. now intros [= <-].
    + apply Hk.
Qed.

(** X20. With every attached pointer live, [GetInterfaceNames] keeps the
    entries the caller's vector already holds and appends one entry per
    attached interface, in the order of attachment, made of its id, the
    separator and its type; it does not clear the vector. *)
Theorem GetInterfaceNames_appends (s : Sim) (c : Controller)
    (names : list string) :
  live s c →
  ∃ added, GetInterfaceNames s c names = Some (names ++ added)
    ∧ length added = length (ifaces c)
    ∧ ∀ k a i, ifaces c !! k = Some a → objects s !! a = Some i →
               added !! k = Some (GetId i +:+ ">>" +:+ GetType i).
Proof. intros Hl. now apply GetInterfaceNames_loop_total. Qed.

(** ** Loading *)

Lemma append_assoc (a b c : string) : (a +:+ b) +:+ c = a +:+ (b +:+ c).
Proof.
  induction a as [|x a IH]; [reflexivity|].
  change (String x ((a +:+ b) +:+ c) = String x (a +:+ (b +:+ c))).
  now f_equal.
Qed.

Lemma append_nil_r (a : string) : a +:+ EmptyString = a.
Proof.
  induction a as [|x a IH]; [reflexivity|].
  change (String x (a +:+ EmptyString) = String x a). now f_equal.
Qed.

(** X21. The name under which [Load] creates an interface is the [name]
    attribute prefixed by the names of the models that enclose the
    controller, outermost first, each followed by the separator;
    sensors and other entities of the chain add nothing, and without an
    enclosing model the name is the attribute itself. *)
Theorem scopedName_models (p : list Entity) (ifaceName : string) :
  scopedName p ifaceName = model_scope p +:+ ifaceName
  ∧ (Forall (λ e, kind e ≠ IsModel) p → scopedName p ifaceName = ifaceName).
Proof.
  assert (E : ∀ p n, scopedName p n = model_scope p +:+ n).
  { clear. induction p as [|e p IH]; intros n; [reflexivity|].
    cbn [scopedName model_scope foldr]. fold (model_scope p).
    destruct (kind e); rewrite IH.
    - symmetry. apply append_assoc.
    - now rewrite append_nil_r.
    - now rewrite append_nil_r. }
  split; [apply E|]. intros H. rewrite E.
  induction H as [|e p He _ IH]; [reflexivity|].
  cbn [model_scope foldr]. fold (model_scope p).
  destruct (kind e); [now destruct He| |]; now rewrite append_nil_r.
Qed.

Lemma extends_same (st st' : Loading) :
  obj st' = obj st → sim st' = sim st → extends st st' [].
Proof.
  intros Ho Hs. unfold extends. rewrite Ho, Hs, app_nil_r.
  repeat split; auto.
  - constructor.
  - now apply elem_of_nil in H.
  - now apply elem_of_nil in H.
Qed.

Lemma extends_refl (st : Loading) : extends st st [].
Proof. now apply extends_same. Qed.

Lemma extends_trans (st st1 st2 : Loading) (a1 a2 : list addr) :
  extends st st1 a1 → extends st1 st2 a2 → extends st st2 (a1 ++ a2).
Proof.
  intros (Hi1 & Hn1 & Hin1 & Hout1 & A1 & B1 & C1 & D1 & E1 & F1 & G1)
         (Hi2 & Hn2 & Hin2 & Hout2 & A2 & B2 & C2 & D2 & E2 & F2 & G2).
  assert (Hdisj : ∀ a, a ∈ a1 → a ∉ a2).
  { intros a Ha1 Ha2. destruct (Hin1 a Ha1) as [_ [x Hx]].
    destruct (Hin2 a Ha2) as [Hnone _]. congruence. }
  unfold extends. split; [now rewrite Hi2, Hi1, app_assoc|].
  split; [apply NoDup_app; auto|].
  split; [|split; [|repeat split; congruence]].
  - intros a Ha. apply elem_of_app in Ha as [Ha|Ha].
    + destruct (Hin1 a Ha) as [Hnone Hsome]. split; [exact Hnone|].
      now rewrite (Hout2 a (Hdisj a Ha)).
    + destruct (Hin2 a Ha) as [Hnone Hsome]. split; [|exact Hsome].
      rewrite <- (Hout1 a); [exact Hnone|].
      intros Ha1. exact (Hdisj a Ha1 Ha).
  - intros a Ha. apply not_elem_of_app in Ha as [Ha1 Ha2].
    now rewrite (Hout2 a Ha2), (Hout1 a Ha1).
Qed.

Lemma extends_attached (st st' : Loading) (added : list addr) :
  attached (sim st) (core (obj st)) → extends st st' added →
  attached (sim st') (core (obj st')).
Proof.
  intros [Hnd Hl] (Hi & Hn & Hin & Hout & _). unfold attached, live.
  rewrite Hi. split.
  - apply NoDup_app. split; [exact Hnd|]. split; [|exact Hn].
    intros a Ha Ha'. destruct (Hl a Ha) as [x Hx].
    destruct (Hin a Ha') as [Hnone _]. congruence.
  - intros a Ha. apply elem_of_app in Ha as [Ha|Ha].
    + destruct (decide (a ∈ added)) as [Hadd|Hadd].
      * now destruct (Hin a Hadd).
      * rewrite (Hout a Hadd). now apply Hl.
    + now destruct (Hin a Ha).
Qed.

Section LoadFacts.

Variable NewIface : string → option Iface.
Variable Create : Iface → string → Iface + string.
Variable new_addr : gmap addr Iface → addr.

(** [new] returns the address of no live object. *)
Hypothesis new_addr_fresh : ∀ h, h !! new_addr h = None.

Local Abbreviation Load_interface := (Load_interface NewIface Create new_addr).
Local Abbreviation Load_interfaces :=
  (Load_interfaces NewIface Create new_addr).
Local Abbreviation Load := (Load NewIface Create new_addr).

Lemma Load_interface_extends (n : InterfaceNode) (st st' : Loading) :
  Load_interface n st = inl st' →
  ∃ added, extends st st' added
    ∧ length added = length (known NewIface [n])
    ∧ (length (gzmsg st') + length added
       = S (length (gzmsg st)))%nat.
Proof.
  unfold Controller.Load_interface, known.
  destruct (NewIface (ifaceType n)) as [i|] eqn:En.
  - rewrite filter_cons_True by (rewrite En; eauto).
    destruct (Create i _) as [i'|e]; [|discriminate]. intros [= <-].
    exists [new_addr (objects (sim st))]. split; [|split; [reflexivity|]].
    + unfold extends. simpl. split; [reflexivity|].
      split; [apply NoDup_singleton|]. split; [|split; [|now repeat split]].
      * intros a Ha. apply list_elem_of_singleton in Ha. subst a.
        split; [apply new_addr_fresh|]. simpl. exists i'.
        apply lookup_insert_eq.
      * intros a Ha. simpl. apply lookup_insert_ne. intros <-. apply Ha.
        now left.
    + simpl. lia.
  - rewrite filter_cons_False by (rewrite En; intros [x Hx]; discriminate).
    intros [= <-]. exists []. split; [now apply extends_same|]. simpl.
    split; [reflexivity|lia].
Qed.

Lemma Load_interfaces_extends (l : list InterfaceNode) (st st' : Loading) :
  Load_interfaces l st = inl st' →
  ∃ added, extends st st' added
    ∧ length added = length (known NewIface l)
    ∧ (length (gzmsg st') + length added
       = length (gzmsg st) + length l)%nat.
Proof.
  revert st. induction l as [|n l IH]; intros st; simpl.
  - intros [= <-]. exists []. split; [apply extends_refl|]. simpl.
    split; [reflexivity|lia].
  - destruct (Load_interface n st) as [st1|thrown] eqn:E1; [|discriminate].
    intros H. destruct (Load_interface_extends n st st1 E1)
      as (a1 & X1 & L1 & G1).
    destruct (IH st1 H) as (a2 & X2 & L2 & G2).
    exists (a1 ++ a2). split; [exact (extends_trans _ _ _ _ _ X1 X2)|].
    assert (K : length (known NewIface (n :: l)) =
                (length (known NewIface [n]) + length (known NewIface l))%nat).
    { unfold known. change (n :: l) with ([n] ++ l).
      now rewrite filter_app, length_app. }
    rewrite length_app, K. simpl length in *. lia.
Qed.

Lemma Load_interfaces_thrown (l : list InterfaceNode) (st st' : Loading)
    (e : string) :
  Load_interfaces l st = inr (e, st') →
  ∃ st1 added n i,
    extends st st1 added ∧ n ∈ l
    ∧ NewIface (ifaceType n) = Some i
    ∧ Create i (scopedName (parent (obj st1)) (ifaceNameAttr n)) = inr e
    ∧ st' = {| obj := obj st1;
               sim := set_objects
                        (<[new_addr (objects (sim st1)) := i]>
                           (objects (sim st1))) (sim st1);
               gzmsg := gzmsg st1 |}.
Proof.
  revert st. induction l as [|n l IH]; intros st; simpl; [discriminate|].
  destruct (Load_interface n st) as [st1|thrown] eqn:E1.
  - intros H. destruct (Load_interface_extends n st st1 E1) as (a1 & X1 & _).
    destruct (IH st1 H) as (st2 & a2 & n' & i & X2 & Hn & HN & HC & ->).
    exists st2, (a1 ++ a2), n', i.
    split; [exact (extends_trans _ _ _ _ _ X1 X2)|].
    split; [now right|]. now repeat split.
  - intros [= ->]. unfold Controller.Load_interface in E1.
    destruct (NewIface (ifaceType n)) as [i|] eqn:En; [|discriminate].
    destruct (Create i _) as [i'|e'] eqn:Ec; [discriminate|].
    injection E1 as <- <-.
    exists st, [], n, i. split; [apply extends_refl|].
    split; [left|]. now repeat split.
Qed.

(** The state in which [Load] enters its loop. *)
Lemma Load_inl (node : XMLConfigNode) (st st' : Loading) :
  Load node st = inl st' →
  ∃ st0 st1,
    Load_interfaces (Node_interfaces node) st0 = inl st1
    ∧ sim st0 = sim st ∧ gzmsg st0 = gzmsg st
    ∧ ifaces (core (obj st0)) = ifaces (core (obj st))
    ∧ core (obj st0) =
      SetUpdateRate (Node_updateRate node)
        (mkController (Node_alwaysOn node) (Node_updateRate node)
           (updatePeriod (core (obj st))) (lastUpdate (core (obj st)))
           (ifaces (core (obj st))) (hooks (core (obj st))))
    ∧ nameP (obj st0) = Node_name node
    ∧ typeName (obj st0) = Node_GetName node
    ∧ core (obj st') = core (obj st1) ∧ sim st' = sim st1
    ∧ gzmsg st' = gzmsg st1
    ∧ nameP (obj st') = nameP (obj st1)
    ∧ typeName (obj st') = typeName (obj st1)
    ∧ childHooks (obj st') = LoadChild :: childHooks (obj st).
Proof.
  unfold Controller.Load. destruct (parent (obj st)) as [|e p] eqn:Ep;
    [discriminate|].
  match goal with
  | |- context [Controller.Load_interfaces _ _ _ _ ?s0] => set (st0 := s0)
  end.
  destruct (Load_interfaces (Node_interfaces node) st0) as [st1|t] eqn:E;
    [|discriminate].
  intros [= <-]. exists st0, st1. simpl. split; [exact E|].
  destruct (Load_interfaces_extends _ _ _ E) as (added & X & _).
  destruct X as (_ & _ & _ & _ & _ & _ & _ & _ & _ & _ & Hh).
  repeat split; try reflexivity.
  - unfold SetUpdateRate. now destruct (Qeq_bool _ _).
  - now rewrite Hh.
Qed.

Lemma Load_inr (node : XMLConfigNode) (st st' : Loading) (e : string) :
  parent (obj st) ≠ [] → Load node st = inr (e, st') →
  ∃ st0,
    Load_interfaces (Node_interfaces node) st0 = inr (e, st')
    ∧ sim st0 = sim st
    ∧ ifaces (core (obj st0)) = ifaces (core (obj st)).
Proof.
  intros Hp. unfold Controller.Load.
  destruct (parent (obj st)) as [|x p] eqn:Ep; [now destruct Hp|].
  match goal with
  | |- context [Controller.Load_interfaces _ _ _ _ ?s0] => set (st0 := s0)
  end.
  destruct (Load_interfaces (Node_interfaces node) st0) as [st1|t] eqn:E;
    [discriminate|].
  intros [= ->]. exists st0. split; [exact E|]. simpl.
  split; [reflexivity|]. unfold SetUpdateRate. now destruct (Qeq_bool _ _).
Qed.

Lemma attached_same (s s' : Sim) (c c' : Controller) :
  objects s' = objects s → ifaces c' = ifaces c →
  attached s c → attached s' c'.
Proof. unfold attached, live. now intros -> ->. Qed.

(** X22. A [Load] that returns leaves every attached pointer live and no
    interface attached twice, given that the controller was so before
    (one without interfaces is) and that [new] returns addresses of no
    live object: the condition under which [IsConnected] and [Fini] are
    safe.  The interfaces attached before stay attached, and no object
    that existed before is changed or removed. *)
Theorem Load_attached (node : XMLConfigNode) (st st' : Loading) :
  attached (sim st) (core (obj st)) → Load node st = inl st' →
  attached (sim st') (core (obj st'))
  ∧ (∀ a, a ∈ ifaces (core (obj st)) → a ∈ ifaces (core (obj st')))
  ∧ (∀ a i, objects (sim st) !! a = Some i →
            objects (sim st') !! a = Some i).
Proof.
  intros Hatt HL.
  destruct (Load_inl node st st' HL)
    as (st0 & st1 & E & Hs & _ & Hi & _ & _ & _ & Hc & Hs' & _).
  destruct (Load_interfaces_extends _ _ _ E) as (added & X & _).
  assert (A0 : attached (sim st0) (core (obj st0)))
    by (apply (attached_same (sim st) _ (core (obj st))); congruence).
  pose proof (extends_attached _ _ _ A0 X) as A1.
  destruct X as (Hi1 & _ & Hin & Hout & _).
  split; [|split].
  - apply (attached_same (sim st1) _ (core (obj st1))); congruence.
  - intros a Ha. rewrite Hc, Hi1, Hi. apply elem_of_app. now left.
  - intros a i Ha. rewrite Hs'. rewrite <- Hs in Ha.
    destruct (decide (a ∈ added)) as [Hadd|Hadd].
    + destruct (Hin a Hadd) as [Hnone _]. congruence.
    + now rewrite (Hout a Hadd).
Qed.


(** X24. No leak on the normal path: for a controller without interfaces,
    a [Load] that returns followed by [Fini] deletes exactly the objects
    that [Load] created; [Fini] completes, the collection is empty and
    the object store is what it was before [Load]. *)
Theorem Load_Fini_no_leak (node : XMLConfigNode) (st st' : Loading) :
  ifaces (core (obj st)) = [] → Load node st = inl st' →
  ∃ c2 s2, Fini (sim st') (core (obj st')) = Some (c2, s2)
    ∧ ifaces c2 = [] ∧ objects s2 = objects (sim st).
Proof.
  intros Hnil HL.
  destruct (Load_inl node st st' HL)
    as (st0 & st1 & E & Hs & _ & Hi & _ & _ & _ & Hc & Hs' & _).
  destruct (Load_interfaces_extends _ _ _ E) as (added & X & _).
  destruct X as (Hi1 & Hnd & Hin & Hout & _).
  rewrite Hi, Hnil in Hi1. simpl in Hi1.
  unfold Fini. rewrite Hc, Hs', Hi1.
  destruct (delete_each_total added (objects (sim st1)) Hnd)
    as (h' & Hd & Hgone & Hkept).
  { intros a Ha. now destruct (Hin a Ha). }
  rewrite Hd. simpl. eexists _, _. split; [reflexivity|]. simpl.
  split; [reflexivity|]. apply map_eq. intros a. rewrite <- Hs.
  destruct (decide (a ∈ added)) as [Hadd|Hadd].
  - rewrite (Hgone a Hadd). now destruct (Hin a Hadd) as [-> _].
  - now rewrite (Hkept a Hadd), (Hout a Hadd).
Qed.

(** X25. When [Iface::Create] throws, [Load] leaves with that exception
    and the interface object it had just obtained from the factory is
    lost: it is in the store, it is not in the interface collection, so
    [Fini] will not delete it.  The interfaces created before it stay
    attached and live. *)
Theorem Load_Create_throws (node : XMLConfigNode) (st st' : Loading)
    (e : string) :
  parent (obj st) ≠ [] → attached (sim st) (core (obj st)) →
  Load node st = inr (e, st') →
  attached (sim st') (core (obj st'))
  ∧ (∃ n i name, n ∈ Node_interfaces node
       ∧ NewIface (ifaceType n) = Some i ∧ Create i name = inr e)
  ∧ ∃ a, (is_Some (objects (sim st') !! a))
         ∧ (a ∉ ifaces (core (obj st')))
         ∧ objects (sim st) !! a = None.
Proof.
  intros Hp Hatt HL.
  destruct (Load_inr node st st' e Hp HL) as (st0 & E & Hs & Hi).
  destruct (Load_interfaces_thrown _ _ _ _ E)
    as (st1 & added & n & i & X & Hn & HN & HC & ->).
  assert (A0 : attached (sim st0) (core (obj st0)))
    by (apply (attached_same (sim st) _ (core (obj st))); congruence).
  destruct (extends_attached _ _ _ A0 X) as [Hnd Hl].
  destruct X as (_ & _ & Hin & Hout & _).
  pose proof (new_addr_fresh (objects (sim st1))) as Hf.
  simpl. split; [|split].
  - split; [exact Hnd|]. intros a Ha. simpl.
    destruct (decide (new_addr (objects (sim st1)) = a)) as [<-|Hne].
    + rewrite lookup_insert_eq. eauto.
    + rewrite lookup_insert_ne by exact Hne. now apply Hl.
  - eauto 10.
  - exists (new_addr (objects (sim st1))). split; [|split].
    + rewrite lookup_insert_eq. eauto.
    + intros Ha. destruct (Hl _ Ha) as [x Hx]. congruence.
    + rewrite <- Hs, <- Hout; [exact Hf|].
      intros Ha. destruct (Hin _ Ha) as [_ [x Hx]]. congruence.
Qed.

End LoadFacts.

(** ** Samples for the added properties *)

Lemma sample_new_addr_fresh (h : gmap addr Iface) :
  h !! sample_new_addr h = None.
Proof.
  unfold sample_new_addr, addr in *. apply not_elem_of_dom.
  exact (is_fresh (dom h)).
Qed.

Lemma sample_three_live : live sample_three.2 (core sample_three.1).
Proof.
  intros a Ha. simpl in Ha.
  repeat (apply elem_of_cons in Ha as [->|Ha]; [vm_compute; eauto|]).
  now apply elem_of_nil in Ha.
Qed.

Lemma GetIface_last_witness :
  GetIface "laser" true 0 sample_three.2 sample_three.1 =
  Some (Returned (Some 3%positive))
  ∧ GetIface "laser" false 2 sample_three.2 sample_three.1 =
    Some (Returned None).
Proof.
  destruct (GetIface_last "laser" true 0 _ _ sample_three_live) as [H0 _].
  destruct (GetIface_last "laser" false 2 _ _ sample_three_live) as [H2 _].
  split; [rewrite H0|rewrite H2]; vm_compute; reflexivity.
Defined.

Lemma GetInterfaceNames_appends_witness :
  GetInterfaceNames sample_three.2 (core sample_three.1) ["kept"] =
  Some ["kept"; "front>>laser"; "base>>position"; "rear>>laser"].
Proof.
  destruct (GetInterfaceNames_appends sample_three.2 (core sample_three.1)
              ["kept"] sample_three_live) as (added & H & _).
  rewrite H. revert H. vm_compute. now intros [= <-].
Defined.

Lemma Load_attached_witness :
  ∃ st', Load sample_NewIface sample_Create sample_new_addr
           sample_node sample_loading = inl st'
         ∧ attached (sim st') (core (obj st')).
Proof.
  destruct (Load sample_NewIface sample_Create sample_new_addr
              sample_node sample_loading) as [st'|t] eqn:E;
    [|vm_compute in E; discriminate].
  exists st'. split; [reflexivity|].
  apply (Load_attached sample_NewIface sample_Create sample_new_addr
           sample_new_addr_fresh sample_node sample_loading st').
  - split; [constructor|]. intros a Ha. now apply elem_of_nil in Ha.
  - exact E.
Defined.


Lemma Load_Fini_no_leak_witness :
  ∃ st' c2 s2,
    Load sample_NewIface sample_Create sample_new_addr
      sample_node sample_loading = inl st'
    ∧ Fini (sim st') (core (obj st')) = Some (c2, s2)
    ∧ objects s2 = ∅.
Proof.
  destruct (Load sample_NewIface sample_Create sample_new_addr
              sample_node sample_loading) as [st'|t] eqn:E;
    [|vm_compute in E; discriminate].
  destruct (Load_Fini_no_leak sample_NewIface sample_Create sample_new_addr
              sample_new_addr_fresh sample_node sample_loading st'
              eq_refl E) as (c2 & s2 & HF & _ & Ho).
  exists st', c2, s2. split; [reflexivity|]. split; [exact HF|exact Ho].
Defined.

Lemma Load_Create_throws_witness :
  ∃ st', Load sample_NewIface sample_Create_fails sample_new_addr
           sample_node sample_loading =
         inr ("shared memory segment exists", st')
         ∧ ∃ a, is_Some (objects (sim st') !! a)
                ∧ a ∉ ifaces (core (obj st')).
Proof.
  destruct (Load sample_NewIface sample_Create_fails sample_new_addr
              sample_node sample_loading) as [st'|[e st']] eqn:E;
    [vm_compute in E; discriminate|].
  assert (He : e = "shared memory segment exists").
  { revert E. vm_compute. now intros [= <- _]. }
  subst e. exists st'. split; [reflexivity|].
  destruct (Load_Create_throws sample_NewIface sample_Create_fails
              sample_new_addr sample_new_addr_fresh sample_node
              sample_loading st' _ ltac:(discriminate)
              ltac:(split; [constructor|intros a Ha; now apply elem_of_nil in Ha])
              E) as (_ & _ & a & Ha & Hn & _).
  exists a. split; [exact Ha|exact Hn].
Defined.

Lemma scopedName_models_witness :
  scopedName sample_chain "laser_iface_0" = "robot::arm::laser_iface_0".
Proof.
  destruct (scopedName_models sample_chain "laser_iface_0") as [H _].
  rewrite H. reflexivity.
Defined.

End ControllerFacts.

(* ===================================================================== *)
(** * Properties of the hinge joint *)
(* ===================================================================== *)

Module SimbodyHingeJointFacts.
Import SimbodyHingeJoint.

Ltac run := unfold mbind, M_bind, bind, mret, M_ret, ret, lift, log,
                   getThis, getPhysics, hasPhysics, putPhysics, putThis.

Lemma mbind_run {A B} (m : M A) (k : A → M B) (w w' : World) (a : A) :
  m w = Some (a, w') → (m ≫= k) w = k a w'.
Proof. intros H. unfold mbind, M_bind, bind. now rewrite H. Qed.

Lemma zero_not_NaN : 0%float ≠ NaN.
Proof.
  intros H. apply (f_equal PrimFloat.is_nan) in H. vm_compute in H.
  discriminate.
Qed.

Section Indexed.

Variable GetAngleCount : nat.
Variable outboardZInGround : State → Vector3.
Variable localAxisInAxisFrame : Joint → nat → Vector3.

Local Abbreviation GetVelocity := (GetVelocity GetAngleCount).
Local Abbreviation GetAngleImpl := (GetAngleImpl GetAngleCount).
Local Abbreviation GetGlobalAxis :=
  (GetGlobalAxis GetAngleCount outboardZInGround localAxisInAxisFrame).
Local Abbreviation SetVelocity := (SetVelocity GetAngleCount).
Local Abbreviation SetForceImpl := (SetForceImpl GetAngleCount).

(** ** Reads *)

Lemma GetVelocity_invalid (i : nat) (w : World) :
  (GetAngleCount ≤ i)%nat →
  GetVelocity i w =
  Some (NaN, say (gzerr "Invalid index for joint, returning NaN") w).
Proof.
  intros Hi. unfold SimbodyHingeJoint.GetVelocity.
  destruct (decide (i < GetAngleCount)%nat); [lia|]. reflexivity.
Qed.

Lemma GetAngleImpl_invalid (i : nat) (w : World) :
  (GetAngleCount ≤ i)%nat →
  GetAngleImpl i w = Some (mkAngle NaN, say (gzerr "index out of bound") w).
Proof.
  intros Hi. unfold SimbodyHingeJoint.GetAngleImpl.
  destruct (decide (i < GetAngleCount)%nat); [lia|]. reflexivity.
Qed.

Lemma steppedAndInRange_invalid (i : nat) (w : World) :
  (GetAngleCount ≤ i)%nat →
  steppedAndInRange GetAngleCount i w = Some (false, w).
Proof.
  intros Hi. unfold steppedAndInRange. run.
  destruct (simbodyPhysics w) as [p|] eqn:E; simpl.
  - rewrite E. rewrite bool_decide_eq_false_2 by lia.
    now rewrite andb_false_r.
  - reflexivity.
Qed.

Lemma GetGlobalAxis_invalid (i : nat) (w : World) :
  (GetAngleCount ≤ i)%nat →
  GetGlobalAxis i w =
  Some (mkVector3 NaN NaN NaN, say (gzerr "index out of bound") w).
Proof.
  intros Hi. unfold SimbodyHingeJoint.GetGlobalAxis.
  rewrite (mbind_run _ _ _ _ _ (steppedAndInRange_invalid i w Hi)).
  destruct (decide (GetAngleCount ≤ i)%nat); [reflexivity|lia].
Qed.

Lemma isInitialized_ready (w : World) :
  ready w → isInitialized w = Some (true, w).
Proof.
  intros [Hj (p & Hp & Hi)]. unfold isInitialized. run.
  now rewrite Hj, Hp, Hi.
Qed.

Lemma isInitialized_not_ready (w : World) :
  not_ready w → isInitialized w = Some (false, w).
Proof.
  unfold isInitialized. run. intros [Hj|(p & Hp & Hi)].
  - now rewrite Hj.
  - destruct (physicsInitialized (this w)); [|reflexivity].
    now rewrite Hp, Hi.
Qed.

(** C4. For an index at or beyond the joint's count, [GetVelocity]
    returns [NaN] and logs an error; the joint with its cache and the
    solver state are what they were. *)
Theorem GetVelocity_out_of_range (i : nat) (w : World) :
  (GetAngleCount ≤ i)%nat →
  ∃ w', GetVelocity i w = Some (NaN, w')
        ∧ PrimFloat.is_nan NaN = true
        ∧ this w' = this w
        ∧ simbodyPhysics w' = simbodyPhysics w
        ∧ console w' =
          gzerr "Invalid index for joint, returning NaN" :: console w.
Proof.
  intros Hi. eexists. split; [now apply GetVelocity_invalid|].
  now repeat split.
Qed.

(** C5. For an index below the joint's count: while the joint or the
    engine is not initialised, [GetVelocity] returns [0.0], which is not
    [NaN], and [GetAngleImpl] returns the angle [0.0], each with a debug
    message and no other effect; once both report initialised,
    [GetVelocity] is the solver's velocity at that index and
    [GetAngleImpl] the solver's coordinate, read from the live state. *)
Theorem Get_before_and_after_init (i : nat) (w : World) :
  (i < GetAngleCount)%nat →
  (not_ready w →
     (∃ text, GetVelocity i w = Some (0%float, say (gzdbg text) w))
     ∧ (∃ text, GetAngleImpl i w = Some (mkAngle 0%float, say (gzdbg text) w)))
  ∧ 0%float ≠ NaN
  ∧ (ready w → ∀ p, simbodyPhysics w = Some p →
     GetVelocity i w = lift (mobod_getOneU (this w) (integ p) i) w
     ∧ GetAngleImpl i w =
       lift (mkAngle <$> mobod_getOneQ (this w) (integ p) i) w
     ∧ (isEmptyHandle (this w) = false →
        (∀ u, stateU (integ p) !! i = Some u →
              GetVelocity i w = Some (u, w))
        ∧ (∀ q, stateQ (integ p) !! i = Some q →
                GetAngleImpl i w = Some (mkAngle q, w)))).
Proof.
  intros Hi. split; [|split; [exact zero_not_NaN|]].
  - intros Hn. pose proof (isInitialized_not_ready w Hn) as E.
    unfold SimbodyHingeJoint.GetVelocity, SimbodyHingeJoint.GetAngleImpl.
    destruct (decide (i < GetAngleCount)%nat); [|lia].
    rewrite !(mbind_run _ _ _ _ _ E). split; eexists; reflexivity.
  - intros Hr p Hp. pose proof (isInitialized_ready w Hr) as E.
    assert (HV : GetVelocity i w = lift (mobod_getOneU (this w) (integ p) i) w).
    { unfold SimbodyHingeJoint.GetVelocity.
      destruct (decide (i < GetAngleCount)%nat); [|lia].
      rewrite (mbind_run _ _ _ _ _ E). run. now rewrite Hp. }
    assert (HA : GetAngleImpl i w =
                 lift (mkAngle <$> mobod_getOneQ (this w) (integ p) i) w).
    { unfold SimbodyHingeJoint.GetAngleImpl.
      destruct (decide (i < GetAngleCount)%nat); [|lia].
      rewrite (mbind_run _ _ _ _ _ E). run. rewrite Hp.
      now destruct (mobod_getOneQ (this w) (integ p) i). }
    split; [exact HV|]. split; [exact HA|]. intros Hh. split.
    + intros u Hu. rewrite HV. unfold mobod_getOneU, lift.
      now rewrite Hh, Hu.
    + intros q Hq. rewrite HA. unfold mobod_getOneQ, lift.
      now rewrite Hh, Hq.
Qed.

(** C10. In [GetVelocity], [GetAngleImpl] and [GetGlobalAxis] an index at
    or beyond the joint's count gives [NaN] (a vector of three [NaN]s for
    [GetGlobalAxis]) with an error message, whatever the initialised and
    stepped flags are and whether or not the engine pointer is set: the
    defaults of the not-yet-ready case are never returned for such an
    index. *)
Theorem out_of_range_before_readiness (i : nat) (w : World) :
  (GetAngleCount ≤ i)%nat →
  (∃ text, GetVelocity i w = Some (NaN, say (gzerr text) w))
  ∧ (∃ text, GetAngleImpl i w = Some (mkAngle NaN, say (gzerr text) w))
  ∧ (∃ text, GetGlobalAxis i w =
             Some (mkVector3 NaN NaN NaN, say (gzerr text) w))
  ∧ NaN ≠ 0%float.
Proof.
  intros Hi.
  split; [eexists; now apply GetVelocity_invalid|].
  split; [eexists; now apply GetAngleImpl_invalid|].
  split; [eexists; now apply GetGlobalAxis_invalid|].
  intros H. symmetry in H. now apply zero_not_NaN.
Qed.

(** ** Writes *)

Lemma SetVelocity_invalid (i : nat) (v : float) (w : World) :
  (GetAngleCount ≤ i)%nat →
  SetVelocity i v w =
  Some (tt, say (gzerr "SetVelocity _index too large.") w).
Proof.
  intros Hi. unfold SimbodyHingeJoint.SetVelocity.
  destruct (decide (i < GetAngleCount)%nat); [lia|]. reflexivity.
Qed.

Lemma SetForceImpl_invalid (i : nat) (v : float) (w : World) :
  (GetAngleCount ≤ i)%nat → SetForceImpl i v w = Some (tt, w).
Proof.
  intros Hi. unfold SimbodyHingeJoint.SetForceImpl. run.
  rewrite bool_decide_eq_false_2 by lia. reflexivity.
Qed.

(** [SetVelocity] writes the solver state only: the joint, with its
    cache, is the same after any call that returns. *)
Lemma SetVelocity_keeps_joint (i : nat) (v : float) (w w' : World) :
  SetVelocity i v w = Some (tt, w') → this w' = this w.
Proof.
  unfold SimbodyHingeJoint.SetVelocity.
  destruct (decide (i < GetAngleCount)%nat).
  - run. destruct (simbodyPhysics w) as [p|]; [|discriminate].
    destruct (mobod_setOneU (this w) (integ p) i v); [|discriminate].
    now intros [= <-].
  - now intros [= <-].
Qed.

Lemma SetVelocity_logged : logged_and_ignored SetVelocity GetAngleCount.
Proof. intros w i v Hi. eexists. now apply SetVelocity_invalid. Qed.

(** C8, as the code has it. A write with an index at or beyond the
    joint's count changes neither the solver state nor the joint and its
    cache: [SetVelocity] logs an error, [SetForceImpl] returns without a
    message (its guard has no [else]).  [SetVelocity] leaves the joint,
    hence the cache, as it was for every index. *)
Theorem write_out_of_range_ignored (i : nat) (v : float) (w : World) :
  (GetAngleCount ≤ i)%nat →
  SetVelocity i v w = Some (tt, say (gzerr "SetVelocity _index too large.") w)
  ∧ SetForceImpl i v w = Some (tt, w)
  ∧ (∀ i' v' w1 w2, SetVelocity i' v' w1 = Some (tt, w2) → this w2 = this w1).
Proof.
  intros Hi. split; [now apply SetVelocity_invalid|].
  split; [now apply SetForceImpl_invalid|].
  intros i' v' w1 w2. apply SetVelocity_keeps_joint.
Qed.

End Indexed.

(** ** The copy loops *)

(** What every iteration preserves, the whole loop preserves. *)
Lemma for_from_preserves {T : Type} (R : T → T → Prop)
    (body : nat → T → option T) :
  (∀ t, R t t) → (∀ a b c, R a b → R b c → R a c) →
  (∀ i t t', body i t = Some t' → R t t') →
  ∀ n i t t', for_from i n body t = Some t' → R t t'.
Proof.
  intros Hrefl Htrans Hbody. induction n as [|n IH]; intros i t t'; simpl.
  - intros [= <-]. apply Hrefl.
  - destruct (body i t) as [t1|] eqn:E; simpl; [|discriminate].
    intros H. apply Htrans with t1; [now apply (Hbody i)|now apply (IH (S i))].
Qed.

Section Copy.

(** A loop whose body stores [src[i]] at index [i] of the array [get t]
    of the object [t]. *)
Context {T : Type} (get : T → list float) (upd : list float → T → T).
Hypothesis get_upd : ∀ l t, get (upd l t) = l.
Hypothesis upd_upd : ∀ l l' t, upd l (upd l' t) = upd l t.
Hypothesis upd_get : ∀ t, upd (get t) t = t.

Variable src : list float.
Variable body : nat → T → option T.
Variable ok : T → Prop.
Hypothesis ok_upd : ∀ l t, ok t → ok (upd l t).
Hypothesis body_copies : ∀ i t x,
  ok t → src !! i = Some x → (i < length (get t))%nat →
  body i t = Some (upd (<[i:=x]> (get t)) t).

Lemma for_from_copy (n i : nat) (t : T) :
  ok t → (i + n ≤ length src)%nat → (i + n ≤ length (get t))%nat →
  ∃ l, for_from i n body t = Some (upd l t)
       ∧ length l = length (get t)
       ∧ ∀ k, l !! k = if decide (i ≤ k < i + n)%nat
                       then src !! k else get t !! k.
Proof.
  revert i t. induction n as [|n IH]; intros i t Hok Hs Hg; simpl.
  - exists (get t). rewrite upd_get. split; [reflexivity|].
    split; [reflexivity|]. intros k.
    destruct (decide (i ≤ k < i + 0)%nat); [lia|reflexivity].
  - destruct (lookup_lt_is_Some_2 src i) as [x Hx]; [lia|].
    rewrite (body_copies i t x Hok Hx) by lia. simpl.
    destruct (IH (S i) (upd (<[i:=x]> (get t)) t)) as (l & Hl & Hlen & Hk).
    + now apply ok_upd.
    + lia.
    + rewrite get_upd, length_insert. lia.
    + exists l. rewrite Hl, upd_upd. split; [reflexivity|].
      rewrite Hlen, get_upd, length_insert. split; [reflexivity|].
      intros k. rewrite Hk, get_upd.
      destruct (decide (S i ≤ k < S i + n)%nat);
        destruct (decide (i ≤ k < i + S n)%nat); try lia; try reflexivity.
      * assert (k = i) as -> by lia.
        rewrite list_lookup_insert_eq by lia. now rewrite Hx.
      * apply list_lookup_insert_ne. lia.
Qed.

(** Copying a whole array of the same length gives the source. *)
Lemma for_upto_copy (t : T) :
  ok t → length (get t) = length src →
  for_upto (length (get t)) body t = Some (upd src t).
Proof.
  intros Hok Hlen. unfold for_upto.
  destruct (for_from_copy (length (get t)) 0 t Hok) as (l & Hl & Hll & Hk);
    [lia|lia|].
  rewrite Hl. do 2 f_equal. apply list_eq. intros k. rewrite Hk.
  destruct (decide (0 ≤ k < 0 + length (get t))%nat); [reflexivity|].
  rewrite !lookup_ge_None_2; [reflexivity|lia|lia].
Qed.

End Copy.

(** ** Save and restore *)

Lemma saveQ_loop (st : State) (j : Joint) :
  bound j → (length (simbodyQ j) ≤ getNumQ st)%nat →
  ∃ l, for_upto (length (simbodyQ j)) (saveQ st) j = Some (set_simbodyQ l j)
       ∧ length l = length (simbodyQ j)
       ∧ (length (simbodyQ j) = getNumQ st → l = stateQ st).
Proof.
  intros Hb Hlen.
  assert (Hbody : ∀ i t x, bound t → stateQ st !! i = Some x →
            (i < length (simbodyQ t))%nat →
            saveQ st i t = Some (set_simbodyQ (<[i:=x]> (simbodyQ t)) t)).
  { intros i t x Ht Hx _. unfold saveQ, mobod_getOneQ. now rewrite Ht, Hx. }
  destruct (for_from_copy simbodyQ set_simbodyQ
              (λ _ _, eq_refl) (λ _ _ _, eq_refl) (λ t, match t with mkJoint _ _ _ _ => eq_refl end)
              (stateQ st) (saveQ st) bound (λ _ _ H, H) Hbody
              (length (simbodyQ j)) 0 j Hb) as (l & Hl & Hll & Hk);
    [exact Hlen|simpl; lia|].
  exists l. split; [exact Hl|]. split; [exact Hll|].
  intros Heq. apply list_eq. intros k. rewrite Hk.
  destruct (decide (0 ≤ k < 0 + length (simbodyQ j))%nat); [reflexivity|].
  unfold getNumQ in Heq. rewrite !lookup_ge_None_2; [reflexivity|lia|lia].
Qed.

Lemma saveU_loop (st : State) (j : Joint) :
  bound j → (length (simbodyU j) ≤ getNumU st)%nat →
  ∃ l, for_upto (length (simbodyU j)) (saveU st) j = Some (set_simbodyU l j)
       ∧ length l = length (simbodyU j)
       ∧ (length (simbodyU j) = getNumU st → l = stateU st).
Proof.
  intros Hb Hlen.
  assert (Hbody : ∀ i t x, bound t → stateU st !! i = Some x →
            (i < length (simbodyU t))%nat →
            saveU st i t = Some (set_simbodyU (<[i:=x]> (simbodyU t)) t)).
  { intros i t x Ht Hx _. unfold saveU, mobod_getOneU. now rewrite Ht, Hx. }
  destruct (for_from_copy simbodyU set_simbodyU
              (λ _ _, eq_refl) (λ _ _ _, eq_refl)
              (λ t, match t with mkJoint _ _ _ _ => eq_refl end)
              (stateU st) (saveU st) bound (λ _ _ H, H) Hbody
              (length (simbodyU j)) 0 j Hb) as (l & Hl & Hll & Hk);
    [exact Hlen|simpl; lia|].
  exists l. split; [exact Hl|]. split; [exact Hll|].
  intros Heq. apply list_eq. intros k. rewrite Hk.
  destruct (decide (0 ≤ k < 0 + length (simbodyU j))%nat); [reflexivity|].
  unfold getNumU in Heq. rewrite !lookup_ge_None_2; [reflexivity|lia|lia].
Qed.

Lemma restoreQ_loop (j : Joint) (st : State) :
  bound j → length (simbodyQ j) = getNumQ st →
  for_upto (length (simbodyQ j)) (restoreQ j) st =
  Some (set_stateQ (simbodyQ j) st).
Proof.
  intros Hb Hlen.
  assert (Hbody : ∀ i t x, True → simbodyQ j !! i = Some x →
            (i < length (stateQ t))%nat →
            restoreQ j i t = Some (set_stateQ (<[i:=x]> (stateQ t)) t)).
  { intros i t x _ Hx Hi. unfold restoreQ, mobod_setOneQ. rewrite Hx. simpl.
    rewrite Hb. unfold getNumQ. now destruct (decide (i < length (stateQ t))%nat). }
  rewrite Hlen. unfold getNumQ.
  apply (for_upto_copy stateQ set_stateQ
           (λ _ _, eq_refl) (λ _ _ _, eq_refl)
           (λ t, match t with mkState _ _ _ => eq_refl end)
           (simbodyQ j) (restoreQ j) (λ _, True) (λ _ _ H, H) Hbody st I).
  now rewrite Hlen.
Qed.

Lemma restoreU_loop (j : Joint) (st : State) :
  bound j → length (simbodyU j) = getNumU st →
  for_upto (length (simbodyU j)) (restoreU j) st =
  Some (set_stateU (simbodyU j) st).
Proof.
  intros Hb Hlen.
  assert (Hbody : ∀ i t x, True → simbodyU j !! i = Some x →
            (i < length (stateU t))%nat →
            restoreU j i t = Some (set_stateU (<[i:=x]> (stateU t)) t)).
  { intros i t x _ Hx Hi. unfold restoreU, mobod_setOneU. rewrite Hx. simpl.
    rewrite Hb. unfold getNumU. now destruct (decide (i < length (stateU t))%nat). }
  rewrite Hlen. unfold getNumU.
  apply (for_upto_copy stateU set_stateU
           (λ _ _, eq_refl) (λ _ _ _, eq_refl)
           (λ t, match t with mkState _ _ _ => eq_refl end)
           (simbodyU j) (restoreU j) (λ _, True) (λ _ _ H, H) Hbody st I).
  now rewrite Hlen.
Qed.

Lemma sizeQ_spec (st : State) (j : Joint) :
  isEmptyHandle (sizeQ st j) = isEmptyHandle j
  ∧ simbodyU (sizeQ st j) = simbodyU j
  ∧ (simbodyQ j = [] → simbodyQ (sizeQ st j) = replicate (getNumQ st) 0%float)
  ∧ (simbodyQ j ≠ [] → sizeQ st j = j).
Proof.
  unfold sizeQ. destruct (bool_decide (simbodyQ j = [])) eqn:E.
  - apply bool_decide_eq_true_1 in E. simpl. rewrite E.
    split; [reflexivity|]. split; [reflexivity|].
    split; [intros _; apply resize_nil|]. intros H. now destruct H.
  - apply bool_decide_eq_false_1 in E.
    split; [reflexivity|]. split; [reflexivity|].
    split; [|reflexivity]. intros H. now destruct E.
Qed.

Lemma sizeU_spec (st : State) (j : Joint) :
  isEmptyHandle (sizeU st j) = isEmptyHandle j
  ∧ simbodyQ (sizeU st j) = simbodyQ j
  ∧ (simbodyU j = [] → simbodyU (sizeU st j) = replicate (getNumU st) 0%float)
  ∧ (simbodyU j ≠ [] → sizeU st j = j).
Proof.
  unfold sizeU. destruct (bool_decide (simbodyU j = [])) eqn:E.
  - apply bool_decide_eq_true_1 in E. simpl. rewrite E.
    split; [reflexivity|]. split; [reflexivity|].
    split; [intros _; apply resize_nil|]. intros H. now destruct H.
  - apply bool_decide_eq_false_1 in E.
    split; [reflexivity|]. split; [reflexivity|].
    split; [|reflexivity]. intros H. now destruct E.
Qed.

(** [SaveSimbodyState] on a bound joint, as a function of the joint. *)
Lemma SaveSimbodyState_bound (st : State) (w : World) :
  bound (this w) →
  SaveSimbodyState st w =
  (j3 ← for_upto (length (simbodyQ (sizeU st (sizeQ st (this w)))))
         (saveQ st) (sizeU st (sizeQ st (this w)));
   j4 ← for_upto (length (simbodyU j3)) (saveU st) j3;
   Some (tt, set_this j4 w)).
Proof.
  intros Hb. destruct w as [j p c]. simpl in *. red in Hb.
  unfold SaveSimbodyState. run. simpl. rewrite Hb. simpl.
  destruct (for_upto _ _ _) as [j3|]; simpl; [|reflexivity].
  destruct (for_upto _ _ _) as [j4|]; reflexivity.
Qed.

Lemma SaveSimbodyState_unbound (st : State) (w : World) :
  isEmptyHandle (this w) = true → SaveSimbodyState st w = Some (tt, w).
Proof.
  intros Hb. unfold SaveSimbodyState. run. now rewrite Hb.
Qed.

Lemma saveQ_same_size (st : State) (i : nat) (t t' : Joint) :
  saveQ st i t = Some t' → same_size t t'.
Proof.
  unfold saveQ. destruct (mobod_getOneQ t st i); simpl; [|discriminate].
  intros [= <-]. split; simpl; [apply length_insert|reflexivity].
Qed.

Lemma saveU_same_size (st : State) (i : nat) (t t' : Joint) :
  saveU st i t = Some t' → same_size t t'.
Proof.
  unfold saveU. destruct (mobod_getOneU t st i); simpl; [|discriminate].
  intros [= <-]. split; simpl; [reflexivity|apply length_insert].
Qed.

Lemma same_size_refl (a : Joint) : same_size a a.
Proof. now split. Qed.

Lemma same_size_trans (a b c : Joint) :
  same_size a b → same_size b c → same_size a c.
Proof. unfold same_size. intros [? ?] [? ?]. split; congruence. Qed.

Lemma SaveSimbodyState_same_size (st : State) (w w' : World) :
  simbodyQ (this w) ≠ [] → simbodyU (this w) ≠ [] →
  SaveSimbodyState st w = Some (tt, w') → same_size (this w) (this w').
Proof.
  intros HQ HU. destruct (isEmptyHandle (this w)) eqn:Hb.
  - rewrite (SaveSimbodyState_unbound st w Hb). intros [= <-].
    apply same_size_refl.
  - rewrite (SaveSimbodyState_bound st w Hb).
    destruct (sizeQ_spec st (this w)) as (_ & _ & _ & EQ). rewrite (EQ HQ).
    destruct (sizeU_spec st (this w)) as (_ & _ & _ & EU). rewrite (EU HU).
    destruct (for_upto _ (saveQ st) _) as [j3|] eqn:E3; simpl; [|discriminate].
    destruct (for_upto _ (saveU st) _) as [j4|] eqn:E4; simpl; [|discriminate].
    intros [= <-]. simpl.
    apply same_size_trans with j3.
    + revert E3. apply for_from_preserves;
        [apply same_size_refl|apply same_size_trans|apply saveQ_same_size].
    + revert E4. apply for_from_preserves;
        [apply same_size_refl|apply same_size_trans|apply saveU_same_size].
Qed.

Lemma sized_fits (st : State) (j : Joint) :
  cache_fits j st → cache_fits (sizeU st (sizeQ st j)) st.
Proof.
  intros [HQ HU]. unfold cache_fits.
  destruct (sizeQ_spec st j) as (_ & U1 & Q1e & Q1n).
  destruct (sizeU_spec st (sizeQ st j)) as (_ & Q2 & U2e & U2n).
  rewrite Q2. split.
  - destruct (decide (simbodyQ j = [])) as [E|E].
    + rewrite (Q1e E), length_replicate. lia.
    + now rewrite (Q1n E).
  - destruct (decide (simbodyU (sizeQ st j) = [])) as [E|E].
    + rewrite (U2e E), length_replicate. lia.
    + rewrite (U2n E), U1. exact HU.
Qed.

Lemma sized_exact (st : State) (j : Joint) :
  cache_sized j st →
  length (simbodyQ (sizeU st (sizeQ st j))) = getNumQ st
  ∧ length (simbodyU (sizeU st (sizeQ st j))) = getNumU st.
Proof.
  intros [HQ HU].
  destruct (sizeQ_spec st j) as (_ & U1 & Q1e & Q1n).
  destruct (sizeU_spec st (sizeQ st j)) as (_ & Q2 & U2e & U2n).
  rewrite Q2. split.
  - destruct (decide (simbodyQ j = [])) as [E|E].
    + now rewrite (Q1e E), length_replicate.
    + rewrite (Q1n E). destruct HQ; [contradiction|assumption].
  - destruct (decide (simbodyU (sizeQ st j) = [])) as [E|E].
    + now rewrite (U2e E), length_replicate.
    + rewrite (U2n E), U1. rewrite U1 in E.
      destruct HU; [contradiction|assumption].
Qed.

Lemma sized_bound (st : State) (j : Joint) :
  bound j → bound (sizeU st (sizeQ st j)).
Proof.
  unfold bound. intros Hb.
  destruct (sizeQ_spec st j) as (B1 & _).
  destruct (sizeU_spec st (sizeQ st j)) as (B2 & _).
  now rewrite B2, B1.
Qed.

Lemma SaveSimbodyState_fits (st : State) (w : World) :
  cache_fits (this w) st → ∃ w', SaveSimbodyState st w = Some (tt, w').
Proof.
  intros Hfit. destruct (isEmptyHandle (this w)) eqn:Hb.
  - exists w. now apply SaveSimbodyState_unbound.
  - rewrite (SaveSimbodyState_bound st w Hb).
    destruct (sized_fits st (this w) Hfit) as [HQ HU].
    pose proof (sized_bound st (this w) Hb) as B2.
    destruct (saveQ_loop st _ B2 HQ) as (l & Hl & _).
    rewrite Hl. simpl.
    destruct (saveU_loop st (set_simbodyQ l (sizeU st (sizeQ st (this w)))) B2)
      as (l' & Hl' & _); [exact HU|].
    simpl in Hl'. rewrite Hl'. simpl. eauto.
Qed.

(** After a snapshot of a bound joint whose cache is empty or sized to
    the state, the cache holds the state's coordinates and velocities. *)
Lemma SaveSimbodyState_sized (st : State) (w : World) :
  bound (this w) → cache_sized (this w) st →
  ∃ j', SaveSimbodyState st w = Some (tt, set_this j' w)
        ∧ isEmptyHandle j' = isEmptyHandle (this w)
        ∧ physicsInitialized j' = physicsInitialized (this w)
        ∧ simbodyQ j' = stateQ st
        ∧ simbodyU j' = stateU st.
Proof.
  intros Hb Hs. rewrite (SaveSimbodyState_bound st w Hb).
  destruct (sized_exact st (this w) Hs) as [HQ HU].
  pose proof (sized_bound st (this w) Hb) as B2.
  destruct (saveQ_loop st _ B2) as (l & Hl & _ & HlQ); [lia|].
  rewrite Hl, (HlQ HQ). simpl.
  destruct (saveU_loop st (set_simbodyQ (stateQ st)
                             (sizeU st (sizeQ st (this w)))) B2)
    as (l' & Hl' & _ & HlU); [simpl; lia|].
  simpl in Hl', HlU. rewrite Hl', (HlU HU). simpl.
  eexists. split; [reflexivity|]. simpl.
  split; [red in B2, Hb; now rewrite B2, Hb|]. split; [|now split].
  unfold sizeU, sizeQ. now repeat destruct (bool_decide _).
Qed.

Lemma RestoreSimbodyState_sized (st : State) (w : World) :
  bound (this w) →
  length (simbodyQ (this w)) = getNumQ st →
  length (simbodyU (this w)) = getNumU st →
  RestoreSimbodyState st w =
  Some (set_stateU (simbodyU (this w)) (set_stateQ (simbodyQ (this w)) st), w).
Proof.
  intros Hb HQ HU. unfold RestoreSimbodyState. run. rewrite Hb. simpl.
  rewrite (restoreQ_loop (this w) st Hb HQ).
  now rewrite (restoreU_loop (this w) (set_stateQ (simbodyQ (this w)) st) Hb HU).
Qed.


(** The invariant of the cache holds for a new joint, and a snapshot
    keeps it for every state with the same counts. *)
Lemma cache_sized_new (st : State) : cache_sized Joint_new st.
Proof. split; now left. Qed.

Lemma cache_sized_SaveSimbodyState (st st' : State) (w w' : World) :
  cache_sized (this w) st →
  getNumQ st' = getNumQ st → getNumU st' = getNumU st →
  SaveSimbodyState st w = Some (tt, w') → cache_sized (this w') st'.
Proof.
  intros Hs EQ EU. destruct (isEmptyHandle (this w)) eqn:Hb.
  - rewrite (SaveSimbodyState_unbound st w Hb). intros [= <-].
    unfold cache_sized. now rewrite EQ, EU.
  - destruct (SaveSimbodyState_sized st w Hb Hs) as (j' & -> & _ & _ & HQ & HU).
    intros [= <-]. simpl. unfold cache_sized. rewrite HQ, HU, EQ, EU.
    split; now right.
Qed.

(** C2. For a joint bound to its mobilizer, whose cache is empty or sized
    to the solver's counts, [SaveSimbodyState] from a state followed by
    [RestoreSimbodyState] into a new state of the same counts, all zero,
    both complete, and the restored state has the saved state's
    coordinate at every position index and its velocity at every
    velocity index. *)
Theorem Save_Restore_roundtrip (st : State) (w : World) :
  bound (this w) → cache_sized (this w) st →
  ∃ w1 st',
    SaveSimbodyState st w = Some (tt, w1)
    ∧ RestoreSimbodyState (State_zero (getNumQ st) (getNumU st)) w1 =
      Some (st', w1)
    ∧ stateQ st' = stateQ st
    ∧ stateU st' = stateU st
    ∧ (∀ i, stateQ st' !! i = stateQ st !! i)
    ∧ (∀ i, stateU st' !! i = stateU st !! i).
Proof.
  intros Hb Hs.
  destruct (SaveSimbodyState_sized st w Hb Hs) as (j' & HS & Hb' & _ & HQ & HU).
  exists (set_this j' w). eexists. split; [exact HS|].
  assert (B : bound (this (set_this j' w))) by (red; simpl; now rewrite Hb').
  assert (LQ : length (simbodyQ (this (set_this j' w))) =
               getNumQ (State_zero (getNumQ st) (getNumU st))).
  { simpl. rewrite HQ. unfold getNumQ, State_zero. simpl.
    now rewrite length_replicate. }
  assert (LU : length (simbodyU (this (set_this j' w))) =
               getNumU (State_zero (getNumQ st) (getNumU st))).
  { simpl. rewrite HU. unfold getNumU, State_zero. simpl.
    now rewrite length_replicate. }
  rewrite (RestoreSimbodyState_sized _ _ B LQ LU).
  split; [reflexivity|]. simpl. rewrite HQ, HU. now repeat split.
Qed.

(** C3. For a joint whose cached sequences are not empty, a
    [SaveSimbodyState] that returns leaves both lengths as they were, and
    so does the one after it; it does return whenever the cache is not
    longer than the state's counts. *)
Theorem SaveSimbodyState_keeps_size (st : State) (w : World) :
  simbodyQ (this w) ≠ [] → simbodyU (this w) ≠ [] →
  (∀ w', SaveSimbodyState st w = Some (tt, w') →
     length (simbodyQ (this w')) = length (simbodyQ (this w))
     ∧ length (simbodyU (this w')) = length (simbodyU (this w))
     ∧ ∀ st2 w'', SaveSimbodyState st2 w' = Some (tt, w'') →
         length (simbodyQ (this w'')) = length (simbodyQ (this w'))
         ∧ length (simbodyU (this w'')) = length (simbodyU (this w')))
  ∧ (cache_fits (this w) st → ∃ w', SaveSimbodyState st w = Some (tt, w')).
Proof.
  intros HQ HU. split; [|apply SaveSimbodyState_fits].
  intros w' H1.
  destruct (SaveSimbodyState_same_size st w w' HQ HU H1) as [LQ LU].
  split; [exact LQ|]. split; [exact LU|]. intros st2 w'' H2.
  apply (SaveSimbodyState_same_size st2 w' w''); [| |exact H2].
  - intros E. rewrite E in LQ. symmetry in LQ. now apply nil_length_inv in LQ.
  - intros E. rewrite E in LU. symmetry in LU. now apply nil_length_inv in LU.
Qed.

(** ** The hinge joint: one axis *)

(** C4 at the hinge joint, index 1. *)
Lemma GetVelocity_out_of_range_witness :
  ∃ w', GetVelocity 1 1 running = Some (NaN, w')
        ∧ this w' = this running
        ∧ simbodyPhysics w' = simbodyPhysics running.
Proof.
  destruct (GetVelocity_out_of_range 1 1 running (le_n 1))
    as (w' & H & _ & Hj & Hp & _).
  exists w'. split; [exact H|]. split; [exact Hj|exact Hp].
Defined.

(** C5 at the hinge joint, index 0, before and after initialisation. *)
Lemma Get_before_and_after_init_witness :
  (∃ text, GetVelocity 1 0 starting = Some (0%float, say (gzdbg text) starting))
  ∧ GetVelocity 1 0 running = Some ((-2)%float, running)
  ∧ GetAngleImpl 1 0 running = Some (mkAngle 0.5%float, running).
Proof.
  assert (Hlt : (0 < 1)%nat) by lia.
  destruct (Get_before_and_after_init 1 0 starting Hlt) as (Hs & _ & _).
  destruct (Get_before_and_after_init 1 0 running Hlt) as (_ & _ & Hr).
  split.
  - apply Hs. left. reflexivity.
  - assert (R : ready running).
    { split; [reflexivity|]. eexists. split; reflexivity. }
    destruct (Hr R _ eq_refl) as (_ & _ & Hlive).
    destruct (Hlive eq_refl) as [HU HQ].
    split; [apply HU|apply HQ]; reflexivity.
Defined.

(** C10 at the hinge joint, index 1, before initialisation. *)
Lemma out_of_range_before_readiness_witness :
  (∃ text, GetVelocity 1 1 starting = Some (NaN, say (gzerr text) starting))
  ∧ (∃ text, GetAngleImpl 1 1 starting =
             Some (mkAngle NaN, say (gzerr text) starting))
  ∧ (∃ text, GetGlobalAxis 1 unit_z unit_x 1 starting =
             Some (mkVector3 NaN NaN NaN, say (gzerr text) starting)).
Proof.
  destruct (out_of_range_before_readiness 1 unit_z unit_x 1 starting (le_n 1))
    as (HV & HA & HG & _).
  split; [exact HV|]. split; [exact HA|exact HG].
Defined.

(** C8 at the hinge joint, index 1. *)
Lemma write_out_of_range_ignored_witness :
  SetVelocity 1 1 1%float running =
  Some (tt, say (gzerr "SetVelocity _index too large.") running)
  ∧ SetForceImpl 1 1 1%float running = Some (tt, running).
Proof.
  destruct (write_out_of_range_ignored 1 1 1%float running (le_n 1))
    as (HV & HF & _).
  split; [exact HV|exact HF].
Defined.

(** C8 as stated fails for [SetForceImpl]: at index 1 of the hinge joint
    the call returns with the world, console included, as it was; no
    error is logged. *)
Lemma SetForceImpl_out_of_range_not_logged :
  SetForceImpl 1 1 1%float running = Some (tt, running)
  ∧ (¬ ∃ text, SetForceImpl 1 1 1%float running =
               Some (tt, say (gzerr text) running))
  ∧ ¬ logged_and_ignored (SetForceImpl 1) 1.
Proof.
  assert (H : SetForceImpl 1 1 1%float running = Some (tt, running))
    by reflexivity.
  assert (N : ¬ ∃ text, SetForceImpl 1 1 1%float running =
                        Some (tt, say (gzerr text) running)).
  { intros [text Ht]. rewrite H in Ht. discriminate Ht. }
  split; [exact H|]. split; [exact N|].
  intros L. apply N. exact (L running 1%nat 1%float (le_n 1)).
Qed.

(** C2 at the hinge joint, first snapshot. *)
Lemma Save_Restore_roundtrip_witness :
  ∃ w1 st',
    SaveSimbodyState live_state running = Some (tt, w1)
    ∧ RestoreSimbodyState (State_zero 1 1) w1 = Some (st', w1)
    ∧ stateQ st' = [0.5%float]
    ∧ stateU st' = [(-2)%float].
Proof.
  assert (Hb : bound (this running)) by reflexivity.
  assert (Hs : cache_sized (this running) live_state) by (split; now left).
  destruct (Save_Restore_roundtrip live_state running Hb Hs)
    as (w1 & st' & HS & HR & HQ & HU & _).
  exists w1, st'. split; [exact HS|]. split; [exact HR|].
  split; [exact HQ|exact HU].
Defined.

(** C3 at the hinge joint, second snapshot. *)
Lemma SaveSimbodyState_keeps_size_witness :
  ∃ w', SaveSimbodyState later_state snapshotted = Some (tt, w')
        ∧ length (simbodyQ (this w')) = 1%nat
        ∧ length (simbodyU (this w')) = 1%nat.
Proof.
  assert (HQ : simbodyQ (this snapshotted) ≠ []) by discriminate.
  assert (HU : simbodyU (this snapshotted) ≠ []) by discriminate.
  destruct (SaveSimbodyState_keeps_size later_state snapshotted HQ HU)
    as [Hkeep Hret].
  destruct Hret as [w' Hw'].
  { split; apply le_n. }
  exists w'. split; [exact Hw'|].
  destruct (Hkeep w' Hw') as (LQ & LU & _). split; [exact LQ|exact LU].
Defined.

(** ** More on the accessors *)

Section IndexedMore.

Variable GetAngleCount : nat.
Variable outboardZInGround : State → Vector3.
Variable localAxisInAxisFrame : Joint → nat → Vector3.

Local Abbreviation GetVelocity := (GetVelocity GetAngleCount).
Local Abbreviation GetAngleImpl := (GetAngleImpl GetAngleCount).
Local Abbreviation GetGlobalAxis :=
  (GetGlobalAxis GetAngleCount outboardZInGround localAxisInAxisFrame).
Local Abbreviation SetVelocity := (SetVelocity GetAngleCount).
Local Abbreviation SetForceImpl := (SetForceImpl GetAngleCount).

Ltac cases :=
  repeat (simpl;
          match goal with
          | |- context [match ?x with _ => _ end] => destruct x eqn:?
          end).

Lemma ro_bind {A B} (m : M A) (k : A → M B) :
  reads_only m → (∀ a, reads_only (k a)) → reads_only (m ≫= k).
Proof.
  intros Hm Hk w b w'. unfold mbind, M_bind, bind.
  destruct (m w) as [[a w1]|] eqn:E; [|discriminate]. intros H.
  destruct (Hm _ _ _ E) as [E1 E2]. destruct (Hk a _ _ _ H) as [E3 E4].
  split; congruence.
Qed.

Lemma ro_pure {A} (f : World → option A) :
  reads_only (λ w, match f w with Some a => Some (a, w) | None => None end).
Proof.
  intros w a w'. destruct (f w); [|discriminate]. now intros [= <- <-].
Qed.

Lemma ro_log (m : Msg) : reads_only (log m).
Proof. intros w a w'. unfold log. now intros [= <- <-]. Qed.

Lemma ro_ret {A} (a : A) : reads_only (mret a).
Proof. intros w b w'. now intros [= <- <-]. Qed.

Lemma ro_fault {A} : reads_only (@fault A).
Proof. intros w b w'. discriminate. Qed.

Lemma ro_lift {A} (o : option A) : reads_only (lift o).
Proof. apply (ro_pure (λ _, o)). Qed.

Ltac ro :=
  repeat first
    [ apply ro_bind; [|intros ?]
    | apply ro_ret | apply ro_log | apply ro_fault | apply ro_lift
    | apply (ro_pure (λ w, Some (this w)))
    | apply (ro_pure simbodyPhysics)
    | apply (ro_pure (λ w, Some (bool_decide (is_Some (simbodyPhysics w)))))
    | match goal with
      | |- reads_only (if ?b then _ else _) => destruct b
      end ].

(** What [GetVelocity] and [GetAngleImpl] return, apart from the
    console. *)
Lemma GetVelocity_value (i : nat) (w : World) :
  fst <$> GetVelocity i w =
  if decide (i < GetAngleCount)%nat then
    if physicsInitialized (this w) then
      p ← simbodyPhysics w;
      if simbodyPhysicsInitialized p
      then mobod_getOneU (this w) (integ p) i else Some 0%float
    else Some 0%float
  else Some NaN.
Proof.
  unfold SimbodyHingeJoint.GetVelocity, isInitialized. run.
  destruct (decide (i < GetAngleCount)%nat); [|reflexivity].
  destruct (physicsInitialized (this w)); [|reflexivity].
  destruct (simbodyPhysics w) as [p|] eqn:E; simpl; [|reflexivity].
  destruct (simbodyPhysicsInitialized p); simpl; [|reflexivity].
  rewrite E. now destruct (mobod_getOneU (this w) (integ p) i).
Qed.

Lemma GetAngleImpl_value (i : nat) (w : World) :
  fst <$> GetAngleImpl i w =
  if decide (i < GetAngleCount)%nat then
    if physicsInitialized (this w) then
      p ← simbodyPhysics w;
      if simbodyPhysicsInitialized p
      then mkAngle <$> mobod_getOneQ (this w) (integ p) i
      else Some (mkAngle 0%float)
    else Some (mkAngle 0%float)
  else Some (mkAngle NaN).
Proof.
  unfold SimbodyHingeJoint.GetAngleImpl, isInitialized. run.
  destruct (decide (i < GetAngleCount)%nat); [|reflexivity].
  destruct (physicsInitialized (this w)); [|reflexivity].
  destruct (simbodyPhysics w) as [p|] eqn:E; simpl; [|reflexivity].
  destruct (simbodyPhysicsInitialized p); simpl; [|reflexivity].
  rewrite E. now destruct (mobod_getOneQ (this w) (integ p) i).
Qed.

(** The world after [SetVelocity] with a valid index. *)
Lemma SetVelocity_valid (i : nat) (v : float) (w : World) (p : SimbodyPhysics) :
  (i < GetAngleCount)%nat → bound (this w) → simbodyPhysics w = Some p →
  (i < getNumU (integ p))%nat →
  SetVelocity i v w =
  Some (tt, set_simbodyPhysics
              (set_integ (set_stateU (<[i:=v]> (stateU (integ p))) (integ p)) p)
              w).
Proof.
  intros Hi Hb Hp Hu. unfold SimbodyHingeJoint.SetVelocity.
  destruct (decide (i < GetAngleCount)%nat); [|lia]. run. rewrite Hp.
  unfold mobod_setOneU. rewrite Hb.
  destruct (decide (i < getNumU (integ p))%nat); [reflexivity|lia].
Qed.

(** X9. A velocity written with [SetVelocity] at a valid index is what
    [GetVelocity] returns next at that index, once the joint and the
    engine are initialised: the write goes to the live solver state and
    the read comes from it. *)
Theorem SetVelocity_GetVelocity (i : nat) (v : float) (w : World)
    (p : SimbodyPhysics) :
  (i < GetAngleCount)%nat → bound (this w) → ready w →
  simbodyPhysics w = Some p → (i < getNumU (integ p))%nat →
  ∃ w1, SetVelocity i v w = Some (tt, w1)
        ∧ GetVelocity i w1 = Some (v, w1).
Proof.
  intros Hi Hb [Hj (p' & Hp' & Hinit)] Hp Hu.
  rewrite Hp in Hp'. injection Hp' as <-.
  eexists. split; [exact (SetVelocity_valid i v w p Hi Hb Hp Hu)|].
  unfold SimbodyHingeJoint.GetVelocity, isInitialized. run. simpl.
  destruct (decide (i < GetAngleCount)%nat); [|lia].
  unfold set_simbodyPhysics. simpl.
  rewrite Hj. simpl. rewrite Hinit. unfold mobod_getOneU. simpl.
  red in Hb. rewrite Hb. simpl.
  unfold getNumU in Hu. now rewrite list_lookup_insert_eq by lia.
Qed.

(** X10. [SetVelocity] at a valid index [i] changes no other value that a
    read returns: [GetVelocity] at any other index and [GetAngleImpl] at
    any index return what they returned before, the joint with its cache
    and the console are the same, and so are the coordinates and the
    mobility forces of the solver state. *)
Theorem SetVelocity_frame (i : nat) (v : float) (w : World)
    (p : SimbodyPhysics) :
  (i < GetAngleCount)%nat → bound (this w) → simbodyPhysics w = Some p →
  (i < getNumU (integ p))%nat →
  ∃ w1 p1, SetVelocity i v w = Some (tt, w1)
    ∧ simbodyPhysics w1 = Some p1
    ∧ this w1 = this w ∧ console w1 = console w
    ∧ stateQ (integ p1) = stateQ (integ p)
    ∧ stateForces (integ p1) = stateForces (integ p)
    ∧ (∀ k, k ≠ i → fst <$> GetVelocity k w1 = fst <$> GetVelocity k w)
    ∧ (∀ k, fst <$> GetAngleImpl k w1 = fst <$> GetAngleImpl k w).
Proof.
  intros Hi Hb Hp Hu. eexists _, _.
  split; [exact (SetVelocity_valid i v w p Hi Hb Hp Hu)|]. simpl.
  split; [reflexivity|]. repeat split.
  - intros k Hk. rewrite !GetVelocity_value. simpl. rewrite Hp. simpl.
    unfold mobod_getOneU. simpl.
    now rewrite list_lookup_insert_ne by (intros E; now destruct Hk).
  - intros k. rewrite !GetAngleImpl_value. simpl. now rewrite Hp.
Qed.

(** X11. [SetForceImpl] with a valid index does nothing at all while the
    joint is not initialised, not even a message; once it is, it stores
    the torque as the mobility force at that index and leaves the
    coordinates, the velocities, the joint and the console as they
    were. *)
Theorem SetForceImpl_valid (i : nat) (f : float) (w : World) :
  (i < GetAngleCount)%nat →
  (physicsInitialized (this w) = false → SetForceImpl i f w = Some (tt, w))
  ∧ (∀ p, physicsInitialized (this w) = true → bound (this w) →
          simbodyPhysics w = Some p → (i < getNumU (integ p))%nat →
          SetForceImpl i f w =
          Some (tt, set_simbodyPhysics
                      (set_integ (set_stateForces
                                    (<[i:=f]> (stateForces (integ p)))
                                    (integ p)) p) w)).
Proof.
  intros Hi. unfold SimbodyHingeJoint.SetForceImpl. run.
  rewrite bool_decide_eq_true_2 by exact Hi. simpl. split.
  - now intros ->.
  - intros p -> Hb Hp Hu. rewrite Hp. unfold setOneMobilityForce.
    rewrite Hb. destruct (decide (i < getNumU (integ p))%nat); [reflexivity|lia].
Qed.

(** X12. The three read accessors change neither the joint, cache
    included, nor the engine with its solver state, for any index and in
    any state: a read that returns has at most added to the console. *)
Theorem reads_keep_state (i : nat) :
  reads_only (GetVelocity i) ∧ reads_only (GetAngleImpl i)
  ∧ reads_only (GetGlobalAxis i).
Proof.
  unfold SimbodyHingeJoint.GetVelocity, SimbodyHingeJoint.GetAngleImpl,
    SimbodyHingeJoint.GetGlobalAxis, isInitialized, steppedAndInRange.
  split; [|split]; ro.
Qed.

(** X13. For a valid index [GetGlobalAxis] returns the locally computed
    axis, with a debug message, whenever the engine pointer is null or
    the engine has not stepped; it never faults there.  Once the engine
    has stepped and the joint is bound it returns the axis that the
    solver state gives. *)
Theorem GetGlobalAxis_valid (i : nat) (w : World) :
  (i < GetAngleCount)%nat →
  (simbodyPhysics w = None
   ∨ (∃ p, simbodyPhysics w = Some p ∧ simbodyPhysicsStepped p = false) →
   ∃ text, GetGlobalAxis i w =
           Some (localAxisInAxisFrame (this w) i, say (gzdbg text) w))
  ∧ (∀ p, simbodyPhysics w = Some p → simbodyPhysicsStepped p = true →
          bound (this w) →
          GetGlobalAxis i w = Some (outboardZInGround (integ p), w)).
Proof.
  intros Hi. unfold SimbodyHingeJoint.GetGlobalAxis, steppedAndInRange. run.
  split.
  - intros [Hn|(p & Hp & Hs)].
    + rewrite Hn. simpl.
      destruct (decide (GetAngleCount ≤ i)%nat); [lia|]. eexists. reflexivity.
    + rewrite Hp. simpl. rewrite Hp, Hs. simpl.
      destruct (decide (GetAngleCount ≤ i)%nat); [lia|]. eexists. reflexivity.
  - intros p Hp Hs Hb. rewrite Hp. simpl. rewrite Hp, Hs. simpl.
    rewrite bool_decide_eq_true_2 by exact Hi. rewrite Hp, Hb. reflexivity.
Qed.

End IndexedMore.

(** ** More on save and restore *)

Lemma Joint_eq (a b : Joint) :
  isEmptyHandle a = isEmptyHandle b →
  physicsInitialized a = physicsInitialized b →
  simbodyQ a = simbodyQ b → simbodyU a = simbodyU b → a = b.
Proof. destruct a, b. simpl. now intros -> -> -> ->. Qed.

Lemma cache_sized_counts (j : Joint) (st st' : State) :
  cache_sized j st → getNumQ st' = getNumQ st → getNumU st' = getNumU st →
  cache_sized j st'.
Proof. unfold cache_sized. now intros H -> ->. Qed.

(** X14. A later snapshot replaces an earlier one entirely: for a bound
    joint, saving from a state and then from another state with the same
    counts leaves exactly what saving from the second alone leaves, the
    cache holding the second state's values. *)
Theorem SaveSimbodyState_latest (st1 st2 : State) (w : World) :
  bound (this w) → cache_sized (this w) st1 →
  getNumQ st2 = getNumQ st1 → getNumU st2 = getNumU st1 →
  ∃ w1 w2, SaveSimbodyState st1 w = Some (tt, w1)
    ∧ SaveSimbodyState st2 w1 = Some (tt, w2)
    ∧ SaveSimbodyState st2 w = Some (tt, w2)
    ∧ simbodyQ (this w2) = stateQ st2
    ∧ simbodyU (this w2) = stateU st2.
Proof.
  intros Hb Hs EQ EU.
  destruct (SaveSimbodyState_sized st1 w Hb Hs)
    as (j1 & H1 & Hh1 & Hi1 & HQ1 & HU1).
  assert (Hb1 : bound (this (set_this j1 w))) by (red; simpl; now rewrite Hh1).
  assert (Hs1 : cache_sized (this (set_this j1 w)) st2).
  { simpl. unfold cache_sized. rewrite HQ1, HU1, EQ, EU. split; now right. }
  destruct (SaveSimbodyState_sized st2 _ Hb1 Hs1)
    as (j2 & H2 & Hh2 & Hi2 & HQ2 & HU2).
  destruct (SaveSimbodyState_sized st2 w Hb
              (cache_sized_counts _ _ _ Hs EQ EU))
    as (j3 & H3 & Hh3 & Hi3 & HQ3 & HU3).
  simpl in *.
  assert (E : j3 = j2) by (apply Joint_eq; congruence).
  exists (set_this j1 w), (set_this j2 w).
  split; [exact H1|]. split; [exact H2|]. split; [now rewrite <- E|].
  now split.
Qed.

(** X15. [RestoreSimbodyState] writes nothing, and returns the state it
    was given, when the joint is not bound to a mobilizer or when nothing
    was ever cached; it does not resize. *)
Theorem RestoreSimbodyState_nothing_cached (st : State) (w : World) :
  isEmptyHandle (this w) = true
  ∨ (simbodyQ (this w) = [] ∧ simbodyU (this w) = []) →
  RestoreSimbodyState st w = Some (st, w).
Proof.
  unfold RestoreSimbodyState. run. intros [Hh|[HQ HU]].
  - now rewrite Hh.
  - destruct (isEmptyHandle (this w)); [reflexivity|]. simpl.
    now rewrite HQ, HU.
Qed.

Lemma Save_Restore_target (st target : State) (w : World) :
  bound (this w) → cache_sized (this w) st →
  getNumQ target = getNumQ st → getNumU target = getNumU st →
  ∃ w1 st', SaveSimbodyState st w = Some (tt, w1)
    ∧ RestoreSimbodyState target w1 = Some (st', w1)
    ∧ stateQ st' = stateQ st ∧ stateU st' = stateU st
    ∧ stateForces st' = stateForces target.
Proof.
  intros Hb Hs EQ EU.
  destruct (SaveSimbodyState_sized st w Hb Hs) as (j' & HS & Hb' & _ & HQ & HU).
  exists (set_this j' w). eexists. split; [exact HS|].
  assert (B : bound (this (set_this j' w))) by (red; simpl; now rewrite Hb').
  assert (LQ : length (simbodyQ (this (set_this j' w))) = getNumQ target)
    by (simpl; now rewrite HQ, EQ).
  assert (LU : length (simbodyU (this (set_this j' w))) = getNumU target)
    by (simpl; now rewrite HU, EU).
  rewrite (RestoreSimbodyState_sized _ _ B LQ LU).
  split; [reflexivity|]. simpl. now rewrite HQ, HU.
Qed.

(** X16. The round trip does not need a zeroed target: for a bound joint
    with a well-sized cache, saving from a state and restoring into any
    state with the same counts overwrites every coordinate and velocity
    of the target with the saved ones and leaves its mobility forces and
    the joint as they are. *)
Theorem Save_Restore_any_target (st target : State) (w : World) :
  bound (this w) → cache_sized (this w) st →
  getNumQ target = getNumQ st → getNumU target = getNumU st →
  ∃ w1 st', SaveSimbodyState st w = Some (tt, w1)
    ∧ RestoreSimbodyState target w1 = Some (st', w1)
    ∧ stateQ st' = stateQ st ∧ stateU st' = stateU st
    ∧ stateForces st' = stateForces target.
Proof. exact (Save_Restore_target st target w). Qed.


Section Rebuild.

Variable GetAngleCount : nat.

(** X18. The cache carries the joint across a rebuild of the engine: a
    snapshot of the running engine's state, restored into a zeroed state
    that then becomes the state of the initialised engine, makes
    [GetVelocity] and [GetAngleImpl] return at every valid index the
    values the old state held there. *)
Theorem cache_bridges_rebuild (i : nat) (w : World) (p : SimbodyPhysics)
    (q u : float) :
  (i < GetAngleCount)%nat → bound (this w) → ready w →
  simbodyPhysics w = Some p → cache_sized (this w) (integ p) →
  stateQ (integ p) !! i = Some q → stateU (integ p) !! i = Some u →
  ∃ w1 st',
    SaveSimbodyState (integ p) w = Some (tt, w1)
    ∧ RestoreSimbodyState
        (State_zero (getNumQ (integ p)) (getNumU (integ p))) w1 =
      Some (st', w1)
    ∧ GetVelocity GetAngleCount i
        (set_simbodyPhysics (set_integ st' p) w1) =
      Some (u, set_simbodyPhysics (set_integ st' p) w1)
    ∧ GetAngleImpl GetAngleCount i
        (set_simbodyPhysics (set_integ st' p) w1) =
      Some (mkAngle q, set_simbodyPhysics (set_integ st' p) w1).
Proof.
  intros Hi Hb [Hj (p' & Hp' & Hinit)] Hp Hs Hq Hu.
  rewrite Hp in Hp'. injection Hp' as <-.
  destruct (Save_Restore_target (integ p)
              (State_zero (getNumQ (integ p)) (getNumU (integ p))) w Hb Hs)
    as (w1 & st' & HS & HR & HQ & HU & _).
  { unfold getNumQ, State_zero. simpl. now rewrite length_replicate. }
  { unfold getNumU, State_zero. simpl. now rewrite length_replicate. }
  exists w1, st'. split; [exact HS|]. split; [exact HR|].
  destruct (SaveSimbodyState_sized (integ p) w Hb Hs)
    as (j' & HS' & Hh' & Hi' & _).
  rewrite HS in HS'. injection HS' as ->. red in Hb.
  unfold SimbodyHingeJoint.GetVelocity, SimbodyHingeJoint.GetAngleImpl,
    isInitialized. run. unfold set_simbodyPhysics, set_this. simpl.
  destruct (decide (i < GetAngleCount)%nat); [|lia]. simpl.
  rewrite Hi', Hj. simpl. rewrite Hinit.
  unfold mobod_getOneU, mobod_getOneQ. simpl.
  rewrite Hh', Hb, HU, HQ, Hu, Hq. now split.
Qed.

End Rebuild.

(** ** Samples for the added properties *)

Lemma SetVelocity_GetVelocity_witness :
  ∃ w1, SetVelocity 1 0 3%float running = Some (tt, w1)
        ∧ GetVelocity 1 0 w1 = Some (3%float, w1).
Proof.
  assert (R : ready running).
  { split; [reflexivity|]. eexists. split; reflexivity. }
  apply (SetVelocity_GetVelocity 1 0 3%float running _
           (le_n 1) eq_refl R eq_refl (le_n 1)).
Defined.

Lemma SetVelocity_frame_witness :
  ∃ w1, SetVelocity 1 0 3%float running = Some (tt, w1)
        ∧ this w1 = hinge
        ∧ fst <$> GetAngleImpl 1 0 w1 = Some (mkAngle 0.5%float).
Proof.
  destruct (SetVelocity_frame 1 0 3%float running _
              (le_n 1) eq_refl eq_refl (le_n 1))
    as (w1 & p1 & HS & _ & Hj & _ & _ & _ & _ & HA).
  exists w1. split; [exact HS|]. split; [exact Hj|].
  rewrite (HA 0%nat). reflexivity.
Defined.

Lemma SetForceImpl_valid_witness :
  SetForceImpl 1 0 7%float starting = Some (tt, starting)
  ∧ ∃ w1 p1, SetForceImpl 1 0 7%float running = Some (tt, w1)
             ∧ simbodyPhysics w1 = Some p1
             ∧ stateForces (integ p1) = [7%float].
Proof.
  destruct (SetForceImpl_valid 1 0 7%float starting (le_n 1)) as [H0 _].
  destruct (SetForceImpl_valid 1 0 7%float running (le_n 1)) as [_ H1].
  split; [exact (H0 eq_refl)|].
  eexists _, _. split; [exact (H1 _ eq_refl eq_refl eq_refl (le_n 1))|].
  split; reflexivity.
Defined.

Lemma GetGlobalAxis_valid_witness :
  (∃ text, GetGlobalAxis 1 unit_z unit_x 0 starting =
           Some (unit_x (this starting) 0%nat, say (gzdbg text) starting))
  ∧ GetGlobalAxis 1 unit_z unit_x 0 running =
    Some (unit_z live_state, running).
Proof.
  destruct (GetGlobalAxis_valid 1 unit_z unit_x 0 starting (le_n 1))
    as [H0 _].
  destruct (GetGlobalAxis_valid 1 unit_z unit_x 0 running (le_n 1))
    as [_ H1].
  split.
  - apply H0. right. eexists. split; reflexivity.
  - exact (H1 _ eq_refl eq_refl eq_refl).
Defined.

Lemma SaveSimbodyState_latest_witness :
  ∃ w2, SaveSimbodyState later_state running = Some (tt, w2)
        ∧ simbodyQ (this w2) = [0.25%float]
        ∧ simbodyU (this w2) = [(-3)%float].
Proof.
  assert (Hs : cache_sized (this running) live_state) by (split; now left).
  destruct (SaveSimbodyState_latest live_state later_state running
              eq_refl Hs eq_refl eq_refl)
    as (w1 & w2 & _ & _ & H & HQ & HU).
  exists w2. split; [exact H|]. split; [exact HQ|exact HU].
Defined.

Lemma RestoreSimbodyState_nothing_cached_witness :
  RestoreSimbodyState live_state running = Some (live_state, running).
Proof.
  apply (RestoreSimbodyState_nothing_cached live_state running).
  right. split; reflexivity.
Defined.

Lemma Save_Restore_any_target_witness :
  ∃ w1 st', SaveSimbodyState live_state running = Some (tt, w1)
    ∧ RestoreSimbodyState later_state w1 = Some (st', w1)
    ∧ stateQ st' = [0.5%float] ∧ stateU st' = [(-2)%float].
Proof.
  assert (Hs : cache_sized (this running) live_state) by (split; now left).
  destruct (Save_Restore_any_target live_state later_state running
              eq_refl Hs eq_refl eq_refl)
    as (w1 & st' & HS & HR & HQ & HU & _).
  exists w1, st'. split; [exact HS|]. split; [exact HR|].
  split; [exact HQ|exact HU].
Defined.

Lemma cache_bridges_rebuild_witness :
  ∃ w1 st',
    SaveSimbodyState live_state running = Some (tt, w1)
    ∧ RestoreSimbodyState (State_zero 1 1) w1 = Some (st', w1)
    ∧ fst <$> GetVelocity 1 0
                (set_simbodyPhysics
                   (set_integ st' (mkSimbodyPhysics true true live_state)) w1)
      = Some (-2)%float.
Proof.
  assert (R : ready running).
  { split; [reflexivity|]. eexists. split; reflexivity. }
  assert (Hs : cache_sized (this running) live_state) by (split; now left).
  destruct (cache_bridges_rebuild 1 0 running
              (mkSimbodyPhysics true true live_state) 0.5%float (-2)%float
              (le_n 1) eq_refl R eq_refl Hs eq_refl eq_refl)
    as (w1 & st' & HS & HR & HV & _).
  exists w1, st'. split; [exact HS|]. split; [exact HR|].
  now rewrite HV.
Defined.

End SimbodyHingeJointFacts.

(* ===================================================================== *)
(** * Properties of the link *)
(* ===================================================================== *)

Module LinkFacts.
Import Link.


(** The second [wheel] is a collision, and is not found. *)
Example GetCollision_hidden :
  GetCollision sample_children "wheel" = None
  ∧ GetCollision sample_children "base" =
    Some {| GetName := "base"; isCollision := true |}.
Proof. split; reflexivity. Qed.

End LinkFacts.
